(** * HelloHTTPS: the non-blocking TLS client driver of [main.cpp]

    A shallow embedding of [HelloHTTPS::startTest] and of the pieces of the C
    library it relies on ([snprintf], [strstr], [sizeof]), followed by the
    properties of the handshake, write and read retry loops.

    The operations of mbed TLS and of the socket are external: their results
    are scripted, one entry per call, and the driver records every call it
    makes in a trace. *)

From Stdlib Require Import ZArith List Bool String Ascii Lia.
Import ListNotations.
Open Scope list_scope.
Open Scope Z_scope.

(** ** Bytes, C strings and the C library *)

Definition byte := ascii.

(** The terminator ['\0']. *)
Definition NUL : byte := Ascii.zero.

(** The character ['\n'] of the request's format string. *)
Definition LF : byte := "010"%char.

Definition bytes (s : string) : list byte := list_ascii_of_string s.

Definition len (l : list byte) : Z := Z.of_nat (List.length l).

(** [size_t] of the target (a 32-bit Cortex-M): unsigned, arithmetic modulo
    2^32. *)
Definition size_t (z : Z) : Z := z mod 2 ^ 32.

Definition INT_MAX : Z := 2 ^ 31 - 1.

(** A memory write of [data] at index [i] of the array [buf].  The array
    keeps its size: bytes that would fall past its end are dropped here
    (in C they are undefined behaviour; the bound theorems show which
    writes stay inside). *)
Fixpoint store (buf : list byte) (i : nat) (data : list byte) : list byte :=
  match buf with
  | [] => []
  | b :: buf' =>
      match i with
      | S i' => b :: store buf' i' data
      | O =>
          match data with
          | [] => buf
          | d :: data' => d :: store buf' O data'
          end
      end
  end.

(** The C string held in an array: the bytes before the first terminator. *)
Fixpoint c_str (buf : list byte) : list byte :=
  match buf with
  | [] => []
  | c :: rest => if Ascii.eqb c NUL then [] else c :: c_str rest
  end.

Fixpoint starts_with (needle hay : list byte) : bool :=
  match needle, hay with
  | [], _ => true
  | _ :: _, [] => false
  | n :: needle', h :: hay' => Ascii.eqb n h && starts_with needle' hay'
  end.

Fixpoint contains (needle hay : list byte) : bool :=
  starts_with needle hay ||
  match hay with
  | [] => false
  | _ :: hay' => contains needle hay'
  end.

(** [strstr(haystack, needle) != NULL]: the needle occurs in the C string
    that starts at [haystack]. *)
Definition strstr (haystack : list byte) (needle : string) : bool :=
  contains (bytes needle) (c_str haystack).

(** The declarative reading of "literal substring". *)
Definition occurs (needle hay : list byte) : Prop :=
  exists pre post, hay = pre ++ needle ++ post.

(** [snprintf(buf, n, ...)] for an already formatted text: at most [n - 1]
    characters are written, followed by a terminator; the value returned is
    the length of the whole text, truncated or not. *)
Definition snprintf (buf : list byte) (n : Z) (text : list byte)
  : list byte * Z :=
  if n <=? 0 then (buf, len text)
  else (store buf O (firstn (Z.to_nat (n - 1)) text ++ [NUL]), len text).

(** How a string constant is declared decides what [sizeof] yields. *)
Inductive c_string_decl :=
| CharPointer (s : string)    (* const char *X = "..."  *)
| CharArray (s : string).     (* const char X[] = "..." *)

(** The size of a data pointer on the target, a 32-bit Cortex-M. *)
Definition SIZEOF_POINTER : Z := 4.

Definition sizeof (d : c_string_decl) : Z :=
  match d with
  | CharPointer _ => SIZEOF_POINTER
  | CharArray s => len (bytes s) + 1
  end.

Definition chars (d : c_string_decl) : list byte :=
  match d with
  | CharPointer s => bytes s
  | CharArray s => bytes s
  end.

(** ** The constants of [main.cpp] *)

Definition HTTPS_SERVER_NAME : c_string_decl := CharPointer "os.mbed.com".
Definition HTTPS_SERVER_PORT : Z := 443.
Definition RECV_BUFFER_SIZE : Z := 600.
Definition HTTPS_PATH : c_string_decl :=
  CharArray "/media/uploads/mbed_official/hello.txt".
Definition HTTPS_OK_STR : string := "200 OK".
Definition HTTPS_HELLO_STR : string := "Hello world!".
Definition DRBG_PERS : c_string_decl := CharPointer "mbed TLS helloword client".

Definition pem_lines : list string :=
  [ "-----BEGIN CERTIFICATE-----";
    "MIIDdTCCAl2gAwIBAgILBAAAAAABFUtaw5QwDQYJKoZIhvcNAQEFBQAwVzELMAkG";
    "A1UEBhMCQkUxGTAXBgNVBAoTEEdsb2JhbFNpZ24gbnYtc2ExEDAOBgNVBAsTB1Jv";
    "b3QgQ0ExGzAZBgNVBAMTEkdsb2JhbFNpZ24gUm9vdCBDQTAeFw05ODA5MDExMjAw";
    "MDBaFw0yODAxMjgxMjAwMDBaMFcxCzAJBgNVBAYTAkJFMRkwFwYDVQQKExBHbG9i";
    "YWxTaWduIG52LXNhMRAwDgYDVQQLEwdSb290IENBMRswGQYDVQQDExJHbG9iYWxT";
    "aWduIFJvb3QgQ0EwggEiMA0GCSqGSIb3DQEBAQUAA4IBDwAwggEKAoIBAQDaDuaZ";
    "jc6j40+Kfvvxi4Mla+pIH/EqsLmVEQS98GPR4mdmzxzdzxtIK+6NiY6arymAZavp";
    "xy0Sy6scTHAHoT0KMM0VjU/43dSMUBUc71DuxC73/OlS8pF94G3VNTCOXkNz8kHp";
    "1Wrjsok6Vjk4bwY8iGlbKk3Fp1S4bInMm/k8yuX9ifUSPJJ4ltbcdG6TRGHRjcdG";
    "snUOhugZitVtbNV4FpWi6cgKOOvyJBNPc1STE4U6G7weNLWLBYy5d4ux2x8gkasJ";
    "U26Qzns3dLlwR5EiUWMWea6xrkEmCMgZK9FGqkjWZCrXgzT/LCrBbBlDSgeF59N8";
    "9iFo7+ryUp9/k5DPAgMBAAGjQjBAMA4GA1UdDwEB/wQEAwIBBjAPBgNVHRMBAf8E";
    "BTADAQH/MB0GA1UdDgQWBBRge2YaRQ2XyolQL30EzTSo//z9SzANBgkqhkiG9w0B";
    "AQUFAAOCAQEA1nPnfE920I2/7LqivjTFKDK1fPxsnCwrvQmeU79rXqoRSLblCKOz";
    "yj1hTdNGCbM+w6DjY1Ub8rrvrTnhQ7k4o+YviiY776BQVvnGCv04zcQLcFGUl5gE";
    "38NflNUVyRRBnMRddWQVDf9VMOyGj/8N7yy5Y0b2qvzfvGn9LhJIZJrglfCm7ymP";
    "AbEVtQwdpf5pLGkkeB6zpxxxYu7KyJesF12KwvhHhm4qxFYxldBniYUr+WymXUad";
    "DKqC5JlR3XC321Y9YeRq4VzW9v493kHMB65jUr9TU/Qr6cf9tveCX4XSQRjbgbME";
    "HMUfpIBvFSDJ3gyICh3WZlXi/EjJKSZp4A==";
    "-----END CERTIFICATE-----" ]%string.

(** The trusted root, every line ended by ['\n']. *)
Definition SSL_CA_PEM : c_string_decl :=
  CharArray
    (fold_right (fun line rest => (line ++ String LF rest)%string)
       EmptyString pem_lines).

(** Modelled from the spec: the would-block(read) result.  The macro
    MBEDTLS_ERR_SSL_WANT_READ comes from mbedtls/ssl.h, which is not part of
    the sources; the value is the one of that header.  The proofs use only
    that it is negative. *)
Definition MBEDTLS_ERR_SSL_WANT_READ : Z := -26880.

(** Modelled from the spec: the would-block(write) result.  The macro
    MBEDTLS_ERR_SSL_WANT_WRITE comes from mbedtls/ssl.h, which is not part of
    the sources; the value is the one of that header.  The proofs use only
    that it is negative. *)
Definition MBEDTLS_ERR_SSL_WANT_WRITE : Z := -26752.

(** Modelled from the spec: the socket's success code NSAPI_ERROR_OK, from
    the mbed OS headers, which are not part of the sources. *)
Definition NSAPI_ERROR_OK : Z := 0.

Definition would_block (ret : Z) : bool :=
  (ret =? MBEDTLS_ERR_SSL_WANT_READ) || (ret =? MBEDTLS_ERR_SSL_WANT_WRITE).

(** ** The object *)

Record HelloHTTPS := mkHello {
  _domain : list byte;          (* const char *_domain *)
  _port : Z;                    (* const uint16_t _port *)
  _buffer : list byte;          (* char _buffer[RECV_BUFFER_SIZE] *)
  _bpos : Z;                    (* size_t *)
  _got200 : bool;
  _gothello : bool;
  _disconnected : bool;
  _request_sent : bool
}.

(** The constructor.  The array is not initialised apart from its last
    byte, and [_disconnected] is not initialised at all: [garbage] and
    [disconnected] stand for whatever they hold. *)
Definition construct (domain : list byte) (port : Z)
    (garbage : list byte) (disconnected : bool) : HelloHTTPS :=
  {| _domain := domain;
     _port := port;
     _buffer := store garbage (Z.to_nat (RECV_BUFFER_SIZE - 1)) [NUL];
     _bpos := 0;
     _got200 := false;
     _gothello := false;
     _disconnected := disconnected;
     _request_sent := false |}.

(** What a [%s] conversion prints: the characters of its argument up to the
    terminator. *)
Definition percent_s (s : list byte) : list byte := c_str s.

(** The text [snprintf] formats:
    ["GET %s HTTP/1.1\nHost: %s\n\n", path, HTTPS_SERVER_NAME]. *)
Definition request_text (path : string) : list byte :=
  bytes "GET " ++ percent_s (bytes path) ++ bytes " HTTP/1.1" ++ [LF] ++
  bytes "Host: " ++ percent_s (chars HTTPS_SERVER_NAME) ++ [LF; LF].

(** ** The external operations and the trace of calls *)

Inductive stage :=
| Seed | CrtParse | ConfigDefaults | Setup | Connect | Handshake | Write | Read.

(** One result of [mbedtls_ssl_read] for a request of [len] bytes: the value
    returned and the bytes it copied to the destination. *)
Definition read_op := Z -> Z * list byte.

(** The scripted results of the external operations, one entry per call for
    those called in a loop. *)
Record env := mkEnv {
  seed_result : Z;              (* mbedtls_ctr_drbg_seed *)
  crt_parse_result : Z;         (* mbedtls_x509_crt_parse *)
  config_defaults_result : Z;   (* mbedtls_ssl_config_defaults *)
  setup_result : Z;             (* mbedtls_ssl_setup *)
  connect_result : Z;           (* _tcpsocket->connect *)
  handshake_results : list Z;   (* mbedtls_ssl_handshake *)
  write_results : list Z;       (* mbedtls_ssl_write *)
  verify_result : Z;            (* mbedtls_ssl_get_verify_result *)
  read_results : list read_op   (* mbedtls_ssl_read *)
}.

Inductive event :=
| ev_ctr_drbg_seed (custom : list byte) (length : Z) (ret : Z)
| ev_x509_crt_parse (length : Z) (ret : Z)
| ev_ssl_config_defaults (ret : Z)
| ev_ssl_conf_authmode_required
| ev_ssl_setup (ret : Z)
| ev_ssl_set_hostname (name : list byte)
| ev_connect (domain : list byte) (port : Z) (ret : Z)
| ev_ssl_handshake (ret : Z)
| ev_ssl_write (offset length : Z) (ret : Z)
| ev_ssl_get_verify_result (flags : Z)
| ev_ssl_read (offset length : Z) (ret : Z)
| ev_close
| ev_print_error (at_stage : stage) (ret : Z)
| ev_print_status (received : Z) (got200 gothello : bool)
    (message : list byte).

(** How a retry loop stands once the scripted results are used up: it has
    left with the last value of [ret], or it is about to call again. *)
Inductive loop_end (S : Type) :=
| Exited (ret : Z) (st : S)
| Calling (st : S).
Arguments Exited {S} ret st.
Arguments Calling {S} st.

(** ** The handshake loop

    [do { ret = mbedtls_ssl_handshake(&_ssl); }
     while (ret != 0 && (ret == WANT_READ || ret == WANT_WRITE));] *)
Fixpoint handshake_loop (results : list Z) : list event * loop_end unit :=
  match results with
  | [] => ([], Calling tt)
  | ret :: results' =>
      if negb (ret =? 0) && would_block ret
      then let (t, e) := handshake_loop results' in (ev_ssl_handshake ret :: t, e)
      else ([ev_ssl_handshake ret], Exited ret tt)
  end.

(** ** The write loop

    [do { ret = mbedtls_ssl_write(&_ssl, _buffer + offset, _bpos - offset);
          if (ret > 0) offset += ret;
     } while (offset < _bpos && (ret > 0 || ret == WANT_READ || ret == WANT_WRITE));]

    [_bpos] is a [size_t] and [offset] an [int]: the subtraction and the
    comparison are unsigned. *)
Fixpoint write_loop (results : list Z) (bpos offset : Z)
  : list event * loop_end Z :=
  match results with
  | [] => ([], Calling offset)
  | ret :: results' =>
      let call := ev_ssl_write offset (size_t (bpos - size_t offset)) ret in
      let offset' := if 0 <? ret then offset + ret else offset in
      if (size_t offset' <? bpos) && ((0 <? ret) || would_block ret)
      then let (t, e) := write_loop results' bpos offset' in (call :: t, e)
      else ([call], Exited ret offset')
  end.

(** ** The read loop *)

(** One pass through the body of the loop, from [mbedtls_ssl_read] to the
    update of the two flags. *)
Definition read_body (op : read_op) (h : HelloHTTPS) (offset : Z)
  : Z * HelloHTTPS * Z :=
  let length := size_t (size_t RECV_BUFFER_SIZE - size_t offset - 1) in
  let (ret, data) := op length in
  let buffer1 :=
    if 0 <? ret then store (_buffer h) (Z.to_nat offset) data else _buffer h in
  let offset' := if 0 <? ret then offset + ret else offset in
  let buffer2 := store buffer1 (Z.to_nat offset') [NUL] in
  let got200 := _got200 h || strstr buffer2 HTTPS_OK_STR in
  let gothello := _gothello h || strstr buffer2 HTTPS_HELLO_STR in
  (ret,
   {| _domain := _domain h; _port := _port h;
      _buffer := buffer2; _bpos := _bpos h;
      _got200 := got200; _gothello := gothello;
      _disconnected := _disconnected h; _request_sent := _request_sent h |},
   offset').

(** What one pass did: the call, its result, and the object and the cursor
    after it. *)
Record read_step := mkStep {
  rd_at : Z;                (* offset before the call *)
  rd_length : Z;            (* length asked for *)
  rd_ret : Z;
  rd_data : list byte;      (* bytes copied by the call *)
  rd_obj : HelloHTTPS;      (* the object after the pass *)
  rd_offset : Z             (* offset after the pass *)
}.

(** [do { body } while ((!_got200 || !_gothello) &&
       (ret > 0 || ret == WANT_READ || ret == WANT_WRITE));] *)
Fixpoint read_loop (ops : list read_op) (h : HelloHTTPS) (offset : Z)
  : list read_step * loop_end (HelloHTTPS * Z) :=
  match ops with
  | [] => ([], Calling (h, offset))
  | op :: ops' =>
      let length := size_t (size_t RECV_BUFFER_SIZE - size_t offset - 1) in
      let '(ret, h', offset') := read_body op h offset in
      let step := mkStep offset length ret (snd (op length)) h' offset' in
      if (negb (_got200 h') || negb (_gothello h')) &&
         ((0 <? ret) || would_block ret)
      then let (t, e) := read_loop ops' h' offset' in (step :: t, e)
      else ([step], Exited ret (h', offset'))
  end.

Definition read_event (s : read_step) : event :=
  ev_ssl_read (rd_at s) (rd_length s) (rd_ret s).

(** ** [startTest]

    The function is written here from its end to its beginning, one
    definition per stretch of the source, each one running to the end of
    the function. *)

Inductive outcome :=
| Failed (s : stage) (ret : Z)    (* error printed, early [return] *)
| Reported (received : Z) (got200 gothello : bool) (message : list byte)
| Busy (s : stage).               (* still inside the retry loop of [s] *)

Definition result := (list event * outcome * HelloHTTPS)%type.

Definition after (t : list event) (r : result) : result :=
  let '(t', o, h) := r in (t ++ t', o, h).

Definition set_buffer (h : HelloHTTPS) (buffer : list byte) (bpos : Z)
  : HelloHTTPS :=
  {| _domain := _domain h; _port := _port h;
     _buffer := buffer; _bpos := bpos;
     _got200 := _got200 h; _gothello := _gothello h;
     _disconnected := _disconnected h; _request_sent := _request_sent h |}.

(** "Initialize the flags". *)
Definition clear_flags (h : HelloHTTPS) : HelloHTTPS :=
  {| _domain := _domain h; _port := _port h;
     _buffer := _buffer h; _bpos := _bpos h;
     _got200 := false; _gothello := false;
     _disconnected := false; _request_sent := false |}.

(** "Fill the request buffer":
    [_bpos = snprintf(_buffer, sizeof(_buffer) - 1, ...)]. *)
Definition fill_request_buffer (path : string) (h : HelloHTTPS)
  : HelloHTTPS :=
  let (buffer, n) :=
    snprintf (_buffer h) (size_t (size_t RECV_BUFFER_SIZE - 1))
      (request_text path) in
  set_buffer h buffer (size_t n).

(** From "Read data out of the socket" to the end. *)
Definition read_response (e : env) (h : HelloHTTPS) : result :=
  let (steps, stop) := read_loop (read_results e) h 0 in
  let t := map read_event steps in
  match stop with
  | Calling (h', _) => (t, Busy Read, h')
  | Exited ret (h', offset) =>
      if ret <? 0
      then (t ++ [ev_print_error Read ret; ev_close], Failed Read ret, h')
      else
        let bpos := size_t offset in
        let buffer := store (_buffer h') (Z.to_nat bpos) [NUL] in
        let h'' := set_buffer h' buffer bpos in
        (t ++ [ev_close;
               ev_print_status bpos (_got200 h'') (_gothello h'')
                 (percent_s buffer)],
         Reported bpos (_got200 h'') (_gothello h'') (percent_s buffer),
         h'')
  end.

(** From "Fill the request buffer" to the end. *)
Definition send_request (e : env) (path : string) (h : HelloHTTPS) : result :=
  let h1 := fill_request_buffer path h in
  let (t, stop) := write_loop (write_results e) (_bpos h1) 0 in
  match stop with
  | Calling _ => (t, Busy Write, h1)
  | Exited ret _ =>
      if ret <? 0
      then (t ++ [ev_print_error Write ret; ev_close], Failed Write ret, h1)
      else
        after (t ++ [ev_ssl_get_verify_result (verify_result e)])
          (read_response e h1)
  end.

(** From "Start the handshake" to the end. *)
Definition handshake (e : env) (path : string) (h : HelloHTTPS) : result :=
  let (t, stop) := handshake_loop (handshake_results e) in
  match stop with
  | Calling _ => (t, Busy Handshake, h)
  | Exited ret _ =>
      if ret <? 0
      then (t ++ [ev_print_error Handshake ret; ev_close],
            Failed Handshake ret, h)
      else after t (send_request e path h)
  end.

Definition startTest (e : env) (path : string) (h : HelloHTTPS) : result :=
  let h := clear_flags h in
  let seed :=
    ev_ctr_drbg_seed (chars DRBG_PERS) (sizeof DRBG_PERS) (seed_result e) in
  if negb (seed_result e =? 0)
  then ([seed; ev_print_error Seed (seed_result e)],
        Failed Seed (seed_result e), h)
  else
  let parse := ev_x509_crt_parse (sizeof SSL_CA_PEM) (crt_parse_result e) in
  if negb (crt_parse_result e =? 0)
  then ([seed; parse; ev_print_error CrtParse (crt_parse_result e)],
        Failed CrtParse (crt_parse_result e), h)
  else
  let defaults := ev_ssl_config_defaults (config_defaults_result e) in
  if negb (config_defaults_result e =? 0)
  then ([seed; parse; defaults;
         ev_print_error ConfigDefaults (config_defaults_result e)],
        Failed ConfigDefaults (config_defaults_result e), h)
  else
  let setup := ev_ssl_setup (setup_result e) in
  if negb (setup_result e =? 0)
  then ([seed; parse; defaults; ev_ssl_conf_authmode_required; setup;
         ev_print_error Setup (setup_result e)],
        Failed Setup (setup_result e), h)
  else
  let connect := ev_connect (_domain h) (_port h) (connect_result e) in
  let before :=
    [seed; parse; defaults; ev_ssl_conf_authmode_required; setup;
     ev_ssl_set_hostname (chars HTTPS_SERVER_NAME); connect] in
  if negb (connect_result e =? NSAPI_ERROR_OK)
  then (before ++ [ev_close], Failed Connect (connect_result e), h)
  else after before (handshake e path h).

(** [main]: the object is built for [HTTPS_SERVER_NAME] and
    [HTTPS_SERVER_PORT], and asked for [HTTPS_PATH]. *)
Definition main_path : string :=
  match HTTPS_PATH with CharPointer s => s | CharArray s => s end.

Definition main (e : env) (garbage : list byte) (disconnected : bool)
  : result :=
  startTest e main_path
    (construct (chars HTTPS_SERVER_NAME) HTTPS_SERVER_PORT garbage
       disconnected).

(** ** Vocabulary of the properties and sample runs *)

(** *** The handshake loop *)

Definition all_would_block (results : list Z) : Prop :=
  Forall (fun ret => would_block ret = true) results.

Definition env_example : env :=
  {| seed_result := 0; crt_parse_result := 0; config_defaults_result := 0;
     setup_result := 0; connect_result := 0;
     handshake_results :=
       [MBEDTLS_ERR_SSL_WANT_READ; MBEDTLS_ERR_SSL_WANT_WRITE; -1; 0];
     write_results := [40; MBEDTLS_ERR_SSL_WANT_WRITE; 31];
     verify_result := 0;
     read_results := [] |}.

Definition hello_example : HelloHTTPS :=
  construct (chars HTTPS_SERVER_NAME) HTTPS_SERVER_PORT
    (repeat "x"%char (Z.to_nat RECV_BUFFER_SIZE)) true.

(** *** The write loop *)

(** A result of a write that is not an error: a positive count or a
    would-block. *)
Definition partial_write (ret : Z) : Prop :=
  0 < ret \/ would_block ret = true.

(** The bytes accepted by a sequence of results. *)
Fixpoint total_sent (results : list Z) : Z :=
  match results with
  | [] => 0
  | ret :: results' => (if 0 <? ret then ret else 0) + total_sent results'
  end.

(** The calls a writer of [L] bytes is expected to make while it is given
    [results]: each one starts at the bytes sent so far and asks for all
    the rest. *)
Fixpoint expected_calls (L offset : Z) (results : list Z) : list event :=
  match results with
  | [] => []
  | ret :: results' =>
      ev_ssl_write offset (L - offset) ret
      :: expected_calls L (if 0 <? ret then offset + ret else offset) results'
  end.

(** *** The request *)

(** The array of the object, whatever it holds. *)
Definition array_of (content : nat -> byte) : list byte :=
  map content (seq 0 (Z.to_nat RECV_BUFFER_SIZE)).

Definition with_write_results (e : env) (results : list Z) : env :=
  {| seed_result := seed_result e; crt_parse_result := crt_parse_result e;
     config_defaults_result := config_defaults_result e;
     setup_result := setup_result e; connect_result := connect_result e;
     handshake_results := handshake_results e;
     write_results := results;
     verify_result := verify_result e;
     read_results := read_results e |}.

(** A path of 600 characters. *)
Definition long_path : string :=
  string_of_list_ascii (repeat "a"%char 600).

(** *** The read loop *)

(** The contract of [mbedtls_ssl_read]: it returns no more than the length
    it was asked for, and a positive result is the number of bytes it
    copied. *)
Definition honours_length (op : read_op) : Prop :=
  forall n, 0 <= n ->
    fst (op n) <= n /\ (0 < fst (op n) -> len (snd (op n)) = fst (op n)).

(** The bytes a call added to the array. *)
Definition fresh (ret : Z) (data : list byte) : list byte :=
  if 0 <? ret then data else [].

(** The bytes received over a run of passes. *)
Definition received (steps : list read_step) : list byte :=
  flat_map (fun s => fresh (rd_ret s) (rd_data s)) steps.

(** The state between two passes: the array starts with the bytes received
    so far, the cursor stands after them and before the last byte of the
    array, and each flag is its value [was200], [washello] on entry or-ed
    with whether its marker occurs in these bytes, read as a C string. *)
Definition accumulated (was200 washello : bool) (h : HelloHTTPS)
    (offset : Z) (got : list byte) : Prop :=
  len (_buffer h) = RECV_BUFFER_SIZE /\
  0 <= offset <= RECV_BUFFER_SIZE - 1 /\
  len got = offset /\
  (exists tail, _buffer h = got ++ tail) /\
  _got200 h = was200 || contains (bytes HTTPS_OK_STR) (c_str got) /\
  _gothello h = washello || contains (bytes HTTPS_HELLO_STR) (c_str got).

Definition state_of {S : Type} (stop : loop_end S) : S :=
  match stop with
  | Exited _ st => st
  | Calling st => st
  end.

Definition retry (ret : Z) : bool := (0 <? ret) || would_block ret.

Definition both_found (h : HelloHTTPS) : bool := _got200 h && _gothello h.

(** What holds after a pass, [got] being the bytes received up to it, this
    pass included. *)
Definition step_ok (was200 washello : bool) (s : read_step)
    (got : list byte) : Prop :=
  accumulated was200 washello (rd_obj s) (rd_offset s) got /\
  (exists tail, _buffer (rd_obj s) = got ++ NUL :: tail) /\
  0 <= rd_at s /\
  rd_length s = RECV_BUFFER_SIZE - 1 - rd_at s /\
  rd_offset s = rd_at s + len (fresh (rd_ret s) (rd_data s)) /\
  len (fresh (rd_ret s) (rd_data s)) <= rd_length s.

(** The indices of the array a pass writes to: those of the bytes copied by
    the call, then that of the terminator. *)
Definition written (s : read_step) : list Z :=
  map (fun i => rd_at s + Z.of_nat i)
    (seq 0 (List.length (fresh (rd_ret s) (rd_data s))))
  ++ [rd_offset s].

Definition inside (i : Z) : Prop := 0 <= i < RECV_BUFFER_SIZE.

(** After a pass: the cursor leaves room for the terminator, the
    terminator is at the cursor, and the pass wrote inside the array. *)
Definition bounded_and_terminated (s : read_step) : Prop :=
  0 <= rd_offset s <= RECV_BUFFER_SIZE - 1 /\
  nth_error (_buffer (rd_obj s)) (Z.to_nat (rd_offset s)) = Some NUL /\
  len (_buffer (rd_obj s)) = RECV_BUFFER_SIZE /\
  Forall inside (written s).

(** Sample read operations: some bytes ready to be read, a would-block, and
    the end of the stream. *)
Definition ready (s : string) : read_op :=
  fun n => let data := firstn (Z.to_nat n) (bytes s) in (len data, data).

Definition not_ready : read_op := fun _ => (MBEDTLS_ERR_SSL_WANT_READ, []).

Definition closed : read_op := fun _ => (0, []).

Definition ops_example : list read_op :=
  [ready "HTTP/1.1 20"; not_ready; ready "0 OK"; ready "Hello wor"; closed].

(** *** The marker flags *)

(** Every marker found in [a] is found in [b]. *)
Definition found_le (a b : HelloHTTPS) : Prop :=
  (_got200 a = true -> _got200 b = true) /\
  (_gothello a = true -> _gothello b = true).

(** *** Runs of the read loop *)

Definition env_success : env :=
  {| seed_result := 0; crt_parse_result := 0; config_defaults_result := 0;
     setup_result := 0; connect_result := 0;
     handshake_results := [MBEDTLS_ERR_SSL_WANT_READ; 0];
     write_results := [40; 31];
     verify_result := 0;
     read_results :=
       [ready "HTTP/1.1 200 OK"; not_ready; ready "Hello world!";
        ready "more"] |}.

(** *** A clean close *)

(** The server sends the status line and closes. *)
Definition env_closed : env :=
  {| seed_result := 0; crt_parse_result := 0; config_defaults_result := 0;
     setup_result := 0; connect_result := 0;
     handshake_results := [0];
     write_results := [71];
     verify_result := 0;
     read_results := [ready "HTTP/1.1 200 OK"; closed] |}.

(** *** The response and the bytes of the request *)

(** What can be seen of a pass: the call and its result, the cursor, the
    flags, and the C string the scan reads. *)
Definition observe (s : read_step)
  : Z * Z * Z * list byte * Z * bool * bool * list byte :=
  (rd_at s, rd_length s, rd_ret s, rd_data s, rd_offset s,
   _got200 (rd_obj s), _gothello (rd_obj s), c_str (_buffer (rd_obj s))).

(** Whether two runs ended the same way. *)
Definition same_end (s1 s2 : loop_end (HelloHTTPS * Z)) : Prop :=
  match s1, s2 with
  | Exited r1 _, Exited r2 _ => r1 = r2
  | Calling _, Calling _ => True
  | _, _ => False
  end.

(** *** Retry loops that are never satisfied *)

Definition never_ready (op : read_op) : Prop :=
  forall n, would_block (fst (op n)) = true.

(** A peer that never answers, seen for five calls of each operation. *)
Definition env_silent : env :=
  {| seed_result := 0; crt_parse_result := 0; config_defaults_result := 0;
     setup_result := 0; connect_result := 0;
     handshake_results :=
       [MBEDTLS_ERR_SSL_WANT_READ; MBEDTLS_ERR_SSL_WANT_WRITE;
        MBEDTLS_ERR_SSL_WANT_READ; MBEDTLS_ERR_SSL_WANT_READ;
        MBEDTLS_ERR_SSL_WANT_WRITE];
     write_results := repeat MBEDTLS_ERR_SSL_WANT_WRITE 5;
     verify_result := 0;
     read_results := repeat not_ready 5 |}.

(** ** The callbacks given to mbed TLS, and the debug callback *)

(** Modelled from the spec: the would-block result of the socket.  The
    constant NSAPI_ERROR_WOULD_BLOCK comes from the mbed OS headers, which
    are not part of the sources; the value is the one of nsapi_types.h.
    The proofs use only that it is negative and differs from -1. *)
Definition NSAPI_ERROR_WOULD_BLOCK : Z := -3001.

(** [ssl_recv], given what [socket->recv] returned: the value handed to
    mbed TLS, and the code printed by "Socket recv error", if any. *)
Definition ssl_recv (recv : Z) : Z * option Z :=
  if NSAPI_ERROR_WOULD_BLOCK =? recv then (MBEDTLS_ERR_SSL_WANT_READ, None)
  else if recv <? 0 then (-1, Some recv)
  else (recv, None).

(** [ssl_send], given what [socket->send] returned. *)
Definition ssl_send (size : Z) : Z * option Z :=
  if NSAPI_ERROR_WOULD_BLOCK =? size then (MBEDTLS_ERR_SSL_WANT_WRITE, None)
  else if size <? 0 then (-1, Some size)
  else (size, None).

Definition SLASH : byte := "/"%char.
Definition BACKSLASH : byte := "\"%char.

Definition separator (c : byte) : bool :=
  Ascii.eqb c SLASH || Ascii.eqb c BACKSLASH.

Definition no_separator (s : list byte) : Prop :=
  Forall (fun c => separator c = false) s.

(** The loop of [my_debug]: [p] and [basename] start at [file]; while the
    character at [p] is not the terminator, [basename] is set to [p + 1]
    when that character is a slash or a backslash, and [p] moves on by
    one.  A pointer is the bytes from it on. *)
Fixpoint basename_loop (basename p : list byte) : list byte :=
  match p with
  | [] => basename
  | c :: p' =>
      if Ascii.eqb c NUL then basename
      else if separator c then basename_loop p' p'
      else basename_loop basename p'
  end.

(** What [my_debug] prints for [%s] of [basename]. *)
Definition my_debug_basename (file : list byte) : list byte :=
  percent_s (basename_loop file file).

(** ** Vocabulary of the traces *)

(** The place of a call in [startTest]. *)
Definition phase (ev : event) : nat :=
  match ev with
  | ev_ctr_drbg_seed _ _ _ => 0
  | ev_x509_crt_parse _ _ => 1
  | ev_ssl_config_defaults _ => 2
  | ev_ssl_conf_authmode_required => 3
  | ev_ssl_setup _ => 4
  | ev_ssl_set_hostname _ => 5
  | ev_connect _ _ _ => 6
  | ev_ssl_handshake _ => 7
  | ev_ssl_write _ _ _ => 8
  | ev_ssl_get_verify_result _ => 9
  | ev_ssl_read _ _ _ => 10
  | ev_print_error _ _ => 11
  | ev_close => 12
  | ev_print_status _ _ _ _ => 13
  end.

(** The calls made in a loop. *)
Definition repeated (ev : event) : bool :=
  match ev with
  | ev_ssl_handshake _ | ev_ssl_write _ _ _ | ev_ssl_read _ _ _ => true
  | _ => false
  end.

(** [b] may come after [a] in a trace: it belongs to a later place, or to
    the same loop. *)
Definition may_follow (a b : event) : Prop :=
  (phase a < phase b)%nat \/ (phase a = phase b /\ repeated a = true).

Definition in_order (t : list event) : Prop := ForallOrdPairs may_follow t.

(** The number of events of a trace at a given place. *)
Definition count_phase (k : nat) (t : list event) : nat :=
  List.length (filter (fun ev => Nat.eqb (phase ev) k) t).

Definition closes (t : list event) : nat := count_phase 12 t.
Definition errors (t : list event) : nat := count_phase 11 t.
Definition statuses (t : list event) : nat := count_phase 13 t.

(** The stages that come before any use of the socket. *)
Definition configuration (s : stage) : bool :=
  match s with
  | Seed | CrtParse | ConfigDefaults | Setup => true
  | _ => false
  end.

Definition trace_of (r : result) : list event := fst (fst r).
Definition outcome_of (r : result) : outcome := snd (fst r).
Definition object_of (r : result) : HelloHTTPS := snd r.

(** How a trace ends, by the outcome: what is printed and whether the
    socket is closed. *)
Definition ending_of (o : outcome) : list event :=
  match o with
  | Busy _ => []
  | Failed Connect _ => [ev_close]
  | Failed s ret =>
      if configuration s then [ev_print_error s ret]
      else [ev_print_error s ret; ev_close]
  | Reported n g200 ghello msg => [ev_close; ev_print_status n g200 ghello msg]
  end.

(** The place of the last call made, by the outcome. *)
Definition reach (o : outcome) : nat :=
  match o with
  | Failed Seed _ => 0
  | Failed CrtParse _ => 1
  | Failed ConfigDefaults _ => 2
  | Failed Setup _ => 4
  | Failed Connect _ => 6
  | Failed Handshake _ | Busy Handshake => 7
  | Failed Write _ | Busy Write => 8
  | _ => 10
  end.

(** The trace of [r] is made of calls of places up to that of its outcome,
    itself [k] at least, and of the ending of its outcome. *)
Definition ends_well (k : nat) (r : result) : Prop :=
  (k <= reach (outcome_of r))%nat /\
  exists body,
    trace_of r = body ++ ending_of (outcome_of r) /\
    Forall (fun ev => (phase ev <= reach (outcome_of r))%nat) body.

(** The trace of [r] is in order and starts at place [k] or later. *)
Definition ordered_from (k : nat) (r : result) : Prop :=
  in_order (trace_of r) /\
  Forall (fun ev => (k <= phase ev)%nat) (trace_of r).

(** A read that fails, and a server that sends the status line before
    the connection breaks. *)
Definition failing : read_op := fun _ => (-1, []).

Definition env_read_error : env :=
  {| seed_result := 0; crt_parse_result := 0; config_defaults_result := 0;
     setup_result := 0; connect_result := 0;
     handshake_results := [0];
     write_results := [71];
     verify_result := 0;
     read_results := [ready "HTTP/1.1 200 OK"; failing; ready "Hello world!"]
  |}.

(** The destructor: the contexts of mbed TLS are freed and the socket is
    closed. *)
Definition destroy : list event := [ev_close].

(** [main], from the result of [easy_connect] on: the value returned and
    the calls made.  Without a network nothing is built and 1 is returned;
    otherwise the object is built, [startTest] is run on [HTTPS_PATH] and,
    when it returns, the object is destroyed and [main] ends with 0. *)
Definition program (network : bool) (e : env) (garbage : list byte)
    (disconnected : bool) : option Z * list event :=
  if network then
    let r := main e garbage disconnected in
    match outcome_of r with
    | Busy _ => (None, trace_of r)
    | _ => (Some 0, trace_of r ++ destroy)
    end
  else (Some 1, []).

(** A call made before the request: not a write, not the verification
    result, not a read. *)
Definition before_request (ev : event) : Prop :=
  phase ev <> 8%nat /\ phase ev <> 9%nat /\ phase ev <> 10%nat.

(** A write call that returned no more than it was asked to send. *)
Definition write_within (ev : event) : Prop :=
  match ev with
  | ev_ssl_write _ length ret => ret <= length
  | _ => True
  end.

(** A write call that offers the bytes from [offset] to [bpos]. *)
Definition offers_rest (bpos : Z) (ev : event) : Prop :=
  match ev with
  | ev_ssl_write offset length _ =>
      0 <= offset /\ 0 <= length /\ offset + length = bpos
  | _ => True
  end.

(** * Properties *)

(** ** [size_t] and the would-block results *)

Lemma size_t_small (z : Z) : 0 <= z < 2 ^ 32 -> size_t z = z.
Proof. intros H. unfold size_t. apply Z.mod_small. exact H. Qed.

Lemma want_read_negative : MBEDTLS_ERR_SSL_WANT_READ < 0.
Proof. reflexivity. Qed.

Lemma want_write_negative : MBEDTLS_ERR_SSL_WANT_WRITE < 0.
Proof. reflexivity. Qed.

Lemma would_block_negative (ret : Z) : would_block ret = true -> ret < 0.
Proof.
  unfold would_block. intros H. apply orb_true_iff in H.
  destruct H as [H | H]; apply Z.eqb_eq in H; subst ret.
  - exact want_read_negative.
  - exact want_write_negative.
Qed.

Lemma would_block_not_positive (ret : Z) :
  would_block ret = true -> (0 <? ret) = false.
Proof.
  intros H. apply would_block_negative in H. apply Z.ltb_ge. lia.
Qed.

(** ** Arrays *)

Lemma len_app (a b : list byte) : len (a ++ b) = len a + len b.
Proof. unfold len. rewrite length_app. lia. Qed.

Lemma len_nonneg (a : list byte) : 0 <= len a.
Proof. unfold len. lia. Qed.

Lemma store_length (buf : list byte) :
  forall i data, List.length (store buf i data) = List.length buf.
Proof.
  induction buf as [| b buf IH]; intros i data; simpl.
  - reflexivity.
  - destruct i as [| i].
    + destruct data as [| d data]; simpl; [reflexivity | now rewrite IH].
    + simpl. now rewrite IH.
Qed.

Lemma store_here (data : list byte) :
  forall tail, (List.length data <= List.length tail)%nat ->
    store tail O data = data ++ skipn (List.length data) tail.
Proof.
  induction data as [| d data IH]; intros tail H.
  - destruct tail; reflexivity.
  - destruct tail as [| b tail]; simpl in H; [lia |].
    simpl. f_equal. apply IH. lia.
Qed.

Lemma store_after (before : list byte) :
  forall tail data,
    store (before ++ tail) (List.length before) data
    = before ++ store tail O data.
Proof.
  induction before as [| b before IH]; intros tail data; simpl.
  - reflexivity.
  - now rewrite IH.
Qed.

Lemma store_terminator (before tail : list byte) :
  tail <> [] ->
  store (before ++ tail) (List.length before) [NUL]
  = before ++ NUL :: List.tl tail.
Proof.
  intros H. rewrite store_after. destruct tail as [| b tail]; [congruence |].
  simpl. destruct tail; reflexivity.
Qed.

(** ** C strings and substrings *)

Lemma c_str_terminated (s tail : list byte) :
  c_str (s ++ NUL :: tail) = c_str s.
Proof.
  induction s as [| c s IH]; simpl.
  - reflexivity.
  - destruct (Ascii.eqb c NUL); [reflexivity | now rewrite IH].
Qed.

Lemma c_str_grows (s more : list byte) :
  exists suffix, c_str (s ++ more) = c_str s ++ suffix.
Proof.
  induction s as [| c s [suffix IH]]; simpl.
  - now exists (c_str more).
  - destruct (Ascii.eqb c NUL).
    + now exists [].
    + exists suffix. now rewrite IH.
Qed.

Lemma c_str_no_terminator (s : list byte) :
  ~ In NUL s -> c_str s = s.
Proof.
  induction s as [| c s IH]; simpl; intros H.
  - reflexivity.
  - destruct (Ascii.eqb c NUL) eqn:E.
    + apply Ascii.eqb_eq in E. subst c. exfalso. apply H. now left.
    + f_equal. apply IH. intros Hin. apply H. now right.
Qed.

Lemma c_str_has_no_terminator (s : list byte) : ~ In NUL (c_str s).
Proof.
  induction s as [| c s IH]; simpl.
  - intros [].
  - destruct (Ascii.eqb c NUL) eqn:E.
    + intros [].
    + intros [H | H]; [| now apply IH].
      subst c. now rewrite Ascii.eqb_refl in E.
Qed.

Lemma c_str_length (s : list byte) :
  (List.length (c_str s) <= List.length s)%nat.
Proof.
  induction s as [| c s IH]; simpl; [lia |].
  destruct (Ascii.eqb c NUL); simpl; lia.
Qed.

Lemma starts_with_spec (needle : list byte) :
  forall hay, starts_with needle hay = true <-> exists post, hay = needle ++ post.
Proof.
  induction needle as [| n needle IH]; intros hay; simpl.
  - split; [intros _; now exists hay | reflexivity].
  - destruct hay as [| h hay].
    + split; [discriminate | intros [post H]; discriminate].
    + rewrite andb_true_iff, Ascii.eqb_eq, IH. split.
      * intros [-> [post ->]]. now exists post.
      * intros [post H]. injection H as -> ->. split; [reflexivity | now exists post].
Qed.

Lemma contains_spec (needle : list byte) :
  forall hay, contains needle hay = true <-> occurs needle hay.
Proof.
  unfold occurs. induction hay as [| h hay IH]; simpl.
  - rewrite orb_false_r, starts_with_spec. split.
    + intros [post H]. now exists [], post.
    + intros [pre [post H]]. destruct pre as [| p pre]; [| discriminate].
      now exists post.
  - rewrite orb_true_iff, starts_with_spec, IH. split.
    + intros [[post H] | [pre [post H]]].
      * now exists [], post.
      * exists (h :: pre), post. simpl. now rewrite H.
    + intros [pre [post H]]. destruct pre as [| p pre].
      * left. now exists post.
      * right. injection H as -> ->. now exists pre, post.
Qed.

Lemma contains_grows (needle hay more : list byte) :
  contains needle hay = true -> contains needle (hay ++ more) = true.
Proof.
  rewrite !contains_spec. intros [pre [post ->]].
  exists pre, (post ++ more). now rewrite <- !app_assoc.
Qed.

Lemma strstr_terminated (s tail : list byte) (needle : string) :
  strstr (s ++ NUL :: tail) needle = contains (bytes needle) (c_str s).
Proof. unfold strstr. now rewrite c_str_terminated. Qed.

(** A flag that already reflects the scan of [s] reflects the scan of any
    extension of [s] once the new scan is or-ed in. *)
Lemma scan_accumulates (needle s more : list byte) :
  contains needle (c_str s) || contains needle (c_str (s ++ more))
  = contains needle (c_str (s ++ more)).
Proof.
  destruct (contains needle (c_str s)) eqn:E; [| reflexivity].
  destruct (c_str_grows s more) as [suffix ->].
  simpl. symmetry. now apply contains_grows.
Qed.

(** ** The handshake loop *)

Lemma handshake_loop_retries (pre : list Z) :
  forall rest,
    all_would_block pre ->
    handshake_loop (pre ++ rest)
    = (map ev_ssl_handshake pre ++ fst (handshake_loop rest),
       snd (handshake_loop rest)).
Proof.
  induction pre as [| r pre IH]; intros rest H; simpl.
  - now destruct (handshake_loop rest).
  - inversion H as [| ? ? Hr Hpre]; subst.
    assert (Hnz : negb (r =? 0) = true).
    { apply would_block_negative in Hr. apply negb_true_iff, Z.eqb_neq. lia. }
    rewrite Hnz, Hr. simpl. now rewrite (IH rest Hpre).
Qed.

Lemma handshake_loop_leaves (ret : Z) (rest : list Z) :
  would_block ret = false ->
  handshake_loop (ret :: rest) = ([ev_ssl_handshake ret], Exited ret tt).
Proof. intros H. simpl. rewrite H, andb_false_r. reflexivity. Qed.

(** C4: the handshake loop calls again exactly after a would-block result;
    the first other result ends it.  When that result is negative the
    function prints the error, closes the socket and returns, with no
    further handshake, write or read call; when it is zero or positive the
    function goes on to the request. *)
Theorem handshake_retry_rule (e : env) (path : string) (h : HelloHTTPS)
    (pre : list Z) (ret : Z) (rest : list Z) :
  handshake_results e = pre ++ ret :: rest ->
  all_would_block pre ->
  would_block ret = false ->
  handshake_loop pre = (map ev_ssl_handshake pre, Calling tt) /\
  handshake_loop (handshake_results e)
  = (map ev_ssl_handshake (pre ++ [ret]), Exited ret tt) /\
  (ret < 0 ->
   handshake e path h
   = (map ev_ssl_handshake (pre ++ [ret])
        ++ [ev_print_error Handshake ret; ev_close],
      Failed Handshake ret, h)) /\
  (0 <= ret ->
   handshake e path h
   = after (map ev_ssl_handshake (pre ++ [ret])) (send_request e path h)).
Proof.
  intros He Hpre Hret.
  assert (Hloop : handshake_loop (handshake_results e)
                  = (map ev_ssl_handshake (pre ++ [ret]), Exited ret tt)).
  { rewrite He, (handshake_loop_retries pre (ret :: rest) Hpre).
    rewrite (handshake_loop_leaves ret rest Hret). simpl.
    now rewrite map_app. }
  split; [| split; [exact Hloop | split]].
  - rewrite <- (app_nil_r pre) at 1.
    rewrite (handshake_loop_retries pre [] Hpre). simpl.
    now rewrite app_nil_r.
  - intros Hneg. unfold handshake. rewrite Hloop.
    apply Z.ltb_lt in Hneg. now rewrite Hneg.
  - intros Hpos. unfold handshake. rewrite Hloop.
    apply Z.ltb_ge in Hpos. now rewrite Hpos.
Qed.

Lemma handshake_retry_rule_witness :
  handshake_loop (handshake_results env_example)
  = (map ev_ssl_handshake
       [MBEDTLS_ERR_SSL_WANT_READ; MBEDTLS_ERR_SSL_WANT_WRITE; -1],
     Exited (-1) tt) /\
  handshake env_example main_path hello_example
  = ([ev_ssl_handshake MBEDTLS_ERR_SSL_WANT_READ;
      ev_ssl_handshake MBEDTLS_ERR_SSL_WANT_WRITE;
      ev_ssl_handshake (-1);
      ev_print_error Handshake (-1); ev_close],
     Failed Handshake (-1), hello_example).
Proof.
  destruct (handshake_retry_rule env_example main_path hello_example
              [MBEDTLS_ERR_SSL_WANT_READ; MBEDTLS_ERR_SSL_WANT_WRITE] (-1) [0])
    as (_ & Hloop & Hfail & _).
  - reflexivity.
  - repeat constructor.
  - reflexivity.
  - split; [exact Hloop | apply Hfail; lia].
Defined.

(** ** The write loop *)

Lemma total_sent_nonneg (results : list Z) : 0 <= total_sent results.
Proof.
  induction results as [| r rs IH]; simpl; [lia |].
  destruct (0 <? r) eqn:E; [apply Z.ltb_lt in E |]; lia.
Qed.

Lemma write_loop_continues (ret : Z) (results : list Z) (bpos offset : Z) :
  let offset' := if 0 <? ret then offset + ret else offset in
  (size_t offset' <? bpos) && ((0 <? ret) || would_block ret) = true ->
  write_loop (ret :: results) bpos offset
  = (ev_ssl_write offset (size_t (bpos - size_t offset)) ret
       :: fst (write_loop results bpos offset'),
     snd (write_loop results bpos offset')).
Proof.
  intros offset' H. simpl. fold offset'. rewrite H.
  now destruct (write_loop results bpos offset').
Qed.

Lemma write_loop_stops (ret : Z) (results : list Z) (bpos offset : Z) :
  let offset' := if 0 <? ret then offset + ret else offset in
  (size_t offset' <? bpos) && ((0 <? ret) || would_block ret) = false ->
  write_loop (ret :: results) bpos offset
  = ([ev_ssl_write offset (size_t (bpos - size_t offset)) ret],
     Exited ret offset').
Proof. intros offset' H. simpl. fold offset'. now rewrite H. Qed.

Lemma partial_write_retries (ret : Z) :
  partial_write ret -> (0 <? ret) || would_block ret = true.
Proof.
  intros [H | H].
  - apply Z.ltb_lt in H. now rewrite H.
  - rewrite H. apply orb_true_r.
Qed.

Lemma INT_MAX_size_t : INT_MAX < 2 ^ 32.
Proof. reflexivity. Qed.

Lemma write_loop_partial (results : list Z) :
  forall L offset,
    0 <= offset < L -> L <= INT_MAX ->
    Forall partial_write results ->
    offset + total_sent results = L ->
    exists used unused ret,
      results = used ++ unused /\
      write_loop results L offset
      = (expected_calls L offset used, Exited ret L) /\
      0 < ret /\
      offset + total_sent used = L /\
      forall k, (k < List.length used)%nat ->
        write_loop (firstn k results) L offset
        = (expected_calls L offset (firstn k results),
           Calling (offset + total_sent (firstn k results))) /\
        offset + total_sent (firstn k results) < L.
Proof.
  pose proof INT_MAX_size_t as Hmax.
  induction results as [| r rs IH]; intros L offset Hoff HL Hall Hsum.
  - simpl in Hsum. lia.
  - apply Forall_cons_iff in Hall as [Hr Hrs].
    pose proof (total_sent_nonneg rs) as Hnn.
    pose proof (partial_write_retries r Hr) as Hretry.
    simpl in Hsum.
    set (offset' := if 0 <? r then offset + r else offset) in *.
    assert (Hoff' : offset <= offset' <= L /\
                    offset' = offset + (if 0 <? r then r else 0)).
    { unfold offset'. destruct (0 <? r) eqn:E; [apply Z.ltb_lt in E |]; lia. }
    destruct Hoff' as [Hoff' Heq].
    assert (Hlen : size_t (L - size_t offset) = L - offset).
    { rewrite (size_t_small offset) by lia. apply size_t_small. lia. }
    destruct (Z.eq_dec offset' L) as [Hdone | Hmore].
    + exists [r], rs, r. repeat split.
      * rewrite write_loop_stops; fold offset'.
        -- simpl. now rewrite Hlen, Hdone.
        -- rewrite size_t_small by lia. rewrite Hdone, Z.ltb_irrefl.
           reflexivity.
      * destruct Hr as [Hr | Hr]; [exact Hr |].
        apply would_block_not_positive in Hr. unfold offset' in Hdone.
        rewrite Hr in Hdone. lia.
      * simpl. lia.
      * simpl in H. assert (k = O) by lia. subst k. simpl.
        do 2 f_equal. lia.
      * simpl in H. assert (k = O) by lia. subst k. simpl. lia.
    + assert (Hlt : 0 <= offset' < L) by lia.
      destruct (IH L offset' Hlt HL Hrs ltac:(lia))
        as (used & unused & ret & Hsplit & Hrun & Hret & Hused & Hpre).
      assert (Hcond : (size_t offset' <? L) && ((0 <? r) || would_block r)
                      = true).
      { rewrite size_t_small by lia. rewrite Hretry, andb_true_r.
        apply Z.ltb_lt. lia. }
      exists (r :: used), unused, ret. repeat split.
      * simpl. now rewrite Hsplit.
      * rewrite write_loop_continues by exact Hcond. fold offset'.
        rewrite Hrun, Hlen. reflexivity.
      * exact Hret.
      * simpl. lia.
      * destruct k as [| k]; [simpl; do 2 f_equal; lia |].
        simpl in H. destruct (Hpre k ltac:(lia)) as [Hk _].
        change (firstn (S k) (r :: rs)) with (r :: firstn k rs).
        rewrite write_loop_continues by exact Hcond. fold offset'.
        rewrite Hk, Hlen. simpl. fold offset'. do 2 f_equal. lia.
      * destruct k as [| k]; [simpl; lia |].
        simpl in H. destruct (Hpre k ltac:(lia)) as [_ Hk].
        simpl. lia.
Qed.

(** C2: a writer of [L] bytes that is given positive partial counts adding
    up to [L], with would-block results anywhere among them, leaves its
    loop with [offset = L] and a positive last result (so the error branch
    is not taken); every call it made started at the bytes sent so far and
    asked for exactly the [L - offset] bytes that remained; and before the
    last of these calls the loop had not returned. *)
Theorem write_loop_partial_writes (L : Z) (results : list Z) :
  0 < L <= INT_MAX ->
  Forall partial_write results ->
  total_sent results = L ->
  exists used unused ret,
    results = used ++ unused /\
    write_loop results L 0 = (expected_calls L 0 used, Exited ret L) /\
    0 < ret /\ (ret <? 0) = false /\
    total_sent used = L /\
    forall k, (k < List.length used)%nat ->
      write_loop (firstn k results) L 0
      = (expected_calls L 0 (firstn k results),
         Calling (total_sent (firstn k results))) /\
      total_sent (firstn k results) < L.
Proof.
  intros HL Hall Hsum.
  destruct (write_loop_partial results L 0 ltac:(lia) ltac:(lia) Hall
              ltac:(lia))
    as (used & unused & ret & Hsplit & Hrun & Hret & Hused & Hpre).
  exists used, unused, ret. repeat split; try assumption.
  - apply Z.ltb_ge. lia.
  - destruct (Hpre k H) as [Hk _]. exact Hk.
  - destruct (Hpre k H) as [_ Hk]. exact Hk.
Qed.

Lemma write_loop_partial_writes_witness :
  exists used unused ret,
    [40; MBEDTLS_ERR_SSL_WANT_WRITE; 31; MBEDTLS_ERR_SSL_WANT_READ]
    = used ++ unused /\
    write_loop [40; MBEDTLS_ERR_SSL_WANT_WRITE; 31; MBEDTLS_ERR_SSL_WANT_READ]
      71 0
    = (expected_calls 71 0 used, Exited ret 71) /\
    0 < ret /\ (ret <? 0) = false /\
    total_sent used = 71 /\
    forall k, (k < List.length used)%nat ->
      write_loop
        (firstn k
           [40; MBEDTLS_ERR_SSL_WANT_WRITE; 31; MBEDTLS_ERR_SSL_WANT_READ])
        71 0
      = (expected_calls 71 0
           (firstn k
              [40; MBEDTLS_ERR_SSL_WANT_WRITE; 31; MBEDTLS_ERR_SSL_WANT_READ]),
         Calling
           (total_sent
              (firstn k
                 [40; MBEDTLS_ERR_SSL_WANT_WRITE; 31;
                  MBEDTLS_ERR_SSL_WANT_READ]))) /\
      total_sent
        (firstn k
           [40; MBEDTLS_ERR_SSL_WANT_WRITE; 31; MBEDTLS_ERR_SSL_WANT_READ])
      < 71.
Proof.
  apply (write_loop_partial_writes 71
           [40; MBEDTLS_ERR_SSL_WANT_WRITE; 31; MBEDTLS_ERR_SSL_WANT_READ]).
  - unfold INT_MAX. lia.
  - repeat constructor; (left; lia) || (right; reflexivity).
  - reflexivity.
Defined.

(** Whatever ends the write loop, it is either past the end of the request
    or it was given a result that is neither positive nor would-block. *)
Lemma write_loop_exit (results : list Z) :
  forall bpos offset t ret offset',
    write_loop results bpos offset = (t, Exited ret offset') ->
    bpos <= size_t offset' \/ ((0 <? ret) = false /\ would_block ret = false).
Proof.
  induction results as [| r rs IH]; intros bpos offset t ret offset' H.
  - discriminate.
  - simpl in H.
    set (o := if 0 <? r then offset + r else offset) in *.
    destruct ((size_t o <? bpos) && ((0 <? r) || would_block r)) eqn:E.
    + destruct (write_loop rs bpos o) as [t' stop] eqn:Hrun.
      injection H as _ Hstop. subst stop. exact (IH _ _ _ _ _ Hrun).
    + injection H as _ <- <-.
      apply andb_false_iff in E. destruct E as [E | E].
      * left. apply Z.ltb_ge. exact E.
      * right. now apply orb_false_iff in E.
Qed.

Lemma write_loop_first_call (ret : Z) (results : list Z) (bpos offset : Z) :
  exists t stop,
    write_loop (ret :: results) bpos offset
    = (ev_ssl_write offset (size_t (bpos - size_t offset)) ret :: t, stop).
Proof.
  simpl.
  destruct ((size_t (if 0 <? ret then offset + ret else offset) <? bpos)
            && ((0 <? ret) || would_block ret)).
  - destruct (write_loop results bpos _) as [t stop]. now exists t, stop.
  - now eexists [], _.
Qed.

(** ** The request *)

Lemma request_text_no_terminator (path : string) :
  ~ In NUL (request_text path).
Proof.
  unfold request_text. rewrite !in_app_iff.
  intros [H | [H | [H | [H | [H | [H | H]]]]]].
  - simpl in H. repeat (destruct H as [H | H]; [discriminate |]). exact H.
  - exact (c_str_has_no_terminator _ H).
  - simpl in H. repeat (destruct H as [H | H]; [discriminate |]). exact H.
  - simpl in H. repeat (destruct H as [H | H]; [discriminate |]). exact H.
  - simpl in H. repeat (destruct H as [H | H]; [discriminate |]). exact H.
  - exact (c_str_has_no_terminator _ H).
  - simpl in H. repeat (destruct H as [H | H]; [discriminate |]). exact H.
Qed.

Lemma snprintf_positive (buf : list byte) (n : Z) (text : list byte) :
  0 < n ->
  snprintf buf n text
  = (store buf O (firstn (Z.to_nat (n - 1)) text ++ [NUL]), len text).
Proof.
  intros H. unfold snprintf. destruct (n <=? 0) eqn:E; [| reflexivity].
  apply Z.leb_le in E. lia.
Qed.

Lemma render_size : size_t (size_t RECV_BUFFER_SIZE - 1) = 599.
Proof. reflexivity. Qed.

(** The render itself stays inside the array: the array keeps its size and
    holds, as a C string, the first [RECV_BUFFER_SIZE - 2] characters of
    the request at most. *)
Lemma snprintf_truncates (buf : list byte) (path : string) :
  len buf = RECV_BUFFER_SIZE ->
  let rendered :=
    fst (snprintf buf (size_t (size_t RECV_BUFFER_SIZE - 1))
           (request_text path)) in
  len rendered = RECV_BUFFER_SIZE /\
  c_str rendered
  = firstn (Z.to_nat (RECV_BUFFER_SIZE - 2)) (request_text path).
Proof.
  intros Hbuf rendered. subst rendered.
  rewrite render_size, snprintf_positive by lia.
  change (599 - 1) with (RECV_BUFFER_SIZE - 2).
  set (text := firstn (Z.to_nat (RECV_BUFFER_SIZE - 2)) (request_text path)).
  assert (Htext : (List.length text <= 598)%nat).
  { unfold text. rewrite length_firstn. unfold RECV_BUFFER_SIZE. lia. }
  cbn [fst]. split.
  - unfold len in *. now rewrite store_length.
  - rewrite store_here.
    + rewrite <- app_assoc. cbn [app]. rewrite c_str_terminated.
      apply c_str_no_terminator. intros Hin. unfold text in Hin.
      apply (request_text_no_terminator path).
      rewrite <- (firstn_skipn (Z.to_nat (RECV_BUFFER_SIZE - 2))
                    (request_text path)).
      apply in_or_app. now left.
    + unfold len, RECV_BUFFER_SIZE in Hbuf. rewrite length_app.
      cbn [List.length]. lia.
Qed.

Lemma array_of_length (content : nat -> byte) :
  len (array_of content) = RECV_BUFFER_SIZE.
Proof. unfold len, array_of. now rewrite length_map, length_seq. Qed.

Lemma request_text_long_path : len (request_text long_path) = 633.
Proof. vm_compute. reflexivity. Qed.

(** C1, at a path of 600 characters: the render is cut to 598 characters
    and the array keeps its 600 bytes, but [_bpos] is 633, and the first
    call of the write loop is asked to send 633 bytes from offset 0: the
    bytes from offset 599 on lie past the rendered text and its terminator,
    those from offset 600 on past the array. *)
Theorem write_loop_reads_past_render (e : env) (content : nat -> byte)
    (disconnected : bool) (ret : Z) (results : list Z) :
  let h :=
    construct (chars HTTPS_SERVER_NAME) HTTPS_SERVER_PORT (array_of content)
      disconnected in
  let rendered :=
    fst (snprintf (_buffer h) (size_t (size_t RECV_BUFFER_SIZE - 1))
           (request_text long_path)) in
  len rendered = RECV_BUFFER_SIZE /\
  len (c_str rendered) = 598 /\
  exists t o h',
    send_request (with_write_results e (ret :: results)) long_path h
    = (ev_ssl_write 0 633 ret :: t, o, h') /\
    RECV_BUFFER_SIZE < 0 + 633.
Proof.
  intros h rendered.
  assert (Hlen : len (_buffer h) = RECV_BUFFER_SIZE).
  { unfold h, construct. cbn [_buffer]. unfold len. rewrite store_length.
    exact (array_of_length content). }
  destruct (snprintf_truncates (_buffer h) long_path Hlen) as [H1 H2].
  fold rendered in H1, H2.
  split; [exact H1 | split].
  - rewrite H2. vm_compute. reflexivity.
  - unfold send_request, fill_request_buffer.
    rewrite render_size, snprintf_positive by lia.
    rewrite request_text_long_path. change (size_t 633) with 633.
    unfold set_buffer at 1. cbn [_bpos write_results with_write_results].
    destruct (write_loop_first_call ret results 633 0) as (t & stop & Hw).
    change (size_t (633 - size_t 0)) with 633 in Hw. rewrite Hw.
    destruct stop as [r st | st].
    + destruct (r <? 0).
      * eexists _, _, _. split; reflexivity.
      * destruct (read_response _ _) as [[t' o'] h'].
        eexists _, _, _. split; reflexivity.
    + eexists _, _, _. split; reflexivity.
Qed.

(** A request that fits is rendered whole, and [_bpos] is its length: the
    write loop then sends the rendered text and nothing else. *)
Lemma short_request_rendered_whole (path : string) (h : HelloHTTPS) :
  len (_buffer h) = RECV_BUFFER_SIZE ->
  len (request_text path) <= RECV_BUFFER_SIZE - 2 ->
  c_str (_buffer (fill_request_buffer path h)) = request_text path /\
  _bpos (fill_request_buffer path h) = len (request_text path).
Proof.
  intros Hsize Hfits.
  destruct (snprintf_truncates (_buffer h) path Hsize) as [_ Hstr].
  unfold fill_request_buffer.
  rewrite render_size, snprintf_positive in * by lia.
  cbn [fst] in Hstr. cbn [set_buffer _buffer _bpos]. split.
  - rewrite Hstr. apply firstn_all2. unfold len, RECV_BUFFER_SIZE in *. lia.
  - apply size_t_small. pose proof (len_nonneg (request_text path)).
    unfold RECV_BUFFER_SIZE in *. lia.
Qed.

(** The request of [main] has 71 bytes and fits. *)
Example main_request_fits :
  len (request_text main_path) = 71 /\
  _bpos (fill_request_buffer main_path hello_example) = 71.
Proof. vm_compute. split; reflexivity. Qed.

(** [startTest] on the long path, with a handshake that succeeds at once
    and a write that accepts all it is offered: the call made is for 633
    bytes. *)
Example startTest_long_path :
  In (ev_ssl_write 0 633 633)
    (fst (fst (startTest
                 {| seed_result := 0; crt_parse_result := 0;
                    config_defaults_result := 0; setup_result := 0;
                    connect_result := 0; handshake_results := [0];
                    write_results := [633]; verify_result := 0;
                    read_results := [closed] |}
                 long_path hello_example))).
Proof. vm_compute. intuition. Qed.

(** ** The seed of the random generator *)

Lemma after_first_event (ev : event) (t : list event) (r : result) :
  exists t', fst (fst (after (ev :: t) r)) = ev :: t'.
Proof. destruct r as [[t' o] h]. simpl. now eexists. Qed.

(** C7: whatever the results of the external operations, the first call of
    [startTest] seeds the generator with the address of the personalization
    string and a length of [sizeof (DRBG_PERS)]; [DRBG_PERS] is a pointer,
    so the length is 4 and covers the characters "mbed" only, of the 25 of
    the string. *)
Theorem seed_gets_pointer_size (e : env) (path : string) (h : HelloHTTPS) :
  (exists t,
     fst (fst (startTest e path h))
     = ev_ctr_drbg_seed (bytes "mbed TLS helloword client") 4 (seed_result e)
       :: t) /\
  len (bytes "mbed TLS helloword client") = 25 /\
  firstn (Z.to_nat (sizeof DRBG_PERS)) (chars DRBG_PERS) = bytes "mbed" /\
  sizeof DRBG_PERS < len (chars DRBG_PERS).
Proof.
  split; [| split; [reflexivity | split; reflexivity]].
  unfold startTest.
  destruct (negb (seed_result e =? 0)); [now eexists |].
  destruct (negb (crt_parse_result e =? 0)); [now eexists |].
  destruct (negb (config_defaults_result e =? 0)); [now eexists |].
  destruct (negb (setup_result e =? 0)); [now eexists |].
  destruct (negb (connect_result e =? NSAPI_ERROR_OK)); [now eexists |].
  apply after_first_event.
Qed.

(** On a 64-bit target the pointer has 8 bytes, still fewer than the
    string. *)
Lemma pointer_shorter_than_personalization (pointer_size : Z) :
  pointer_size <= 8 -> pointer_size < len (chars DRBG_PERS).
Proof. intros H. change (len (chars DRBG_PERS)) with 25. lia. Qed.

(** The trusted root is declared as an array, and its [sizeof] covers the
    whole text and its terminator. *)
Lemma crt_parse_gets_whole_text :
  sizeof SSL_CA_PEM = len (chars SSL_CA_PEM) + 1.
Proof. reflexivity. Qed.

(** ** The read loop *)

Lemma fresh_length (op : read_op) (n : Z) :
  honours_length op -> 0 <= n ->
  0 <= len (fresh (fst (op n)) (snd (op n))) <= n /\
  (if 0 <? fst (op n) then fst (op n) else 0)
  = len (fresh (fst (op n)) (snd (op n))).
Proof.
  intros H Hn. destruct (H n Hn) as [Hle Hdata]. unfold fresh.
  destruct (0 <? fst (op n)) eqn:E.
  - apply Z.ltb_lt in E. rewrite (Hdata E). lia.
  - unfold len. simpl. lia.
Qed.

Lemma requested_length (offset : Z) :
  0 <= offset <= RECV_BUFFER_SIZE - 1 ->
  size_t (size_t RECV_BUFFER_SIZE - size_t offset - 1)
  = RECV_BUFFER_SIZE - 1 - offset.
Proof.
  unfold RECV_BUFFER_SIZE. intros H.
  rewrite (size_t_small 600) by lia. rewrite (size_t_small offset) by lia.
  rewrite size_t_small by lia. lia.
Qed.

Lemma read_body_spec (was200 washello : bool) (op : read_op)
    (h : HelloHTTPS) (offset : Z) (got : list byte)
    (ret : Z) (h' : HelloHTTPS) (offset' : Z) :
  accumulated was200 washello h offset got ->
  honours_length op ->
  read_body op h offset = (ret, h', offset') ->
  let n := RECV_BUFFER_SIZE - 1 - offset in
  let more := fresh ret (snd (op n)) in
  ret = fst (op n) /\
  offset' = offset + len more /\
  0 <= len more <= n /\
  (exists tail, _buffer h' = (got ++ more) ++ NUL :: tail) /\
  accumulated was200 washello h' offset' (got ++ more).
Proof.
  intros (Hsize & Hoff & Hgot & [tail Hbuf] & H200 & Hhello) Hop Hbody n.
  assert (Hn : 0 <= n) by (unfold n, RECV_BUFFER_SIZE in *; lia).
  destruct (fresh_length op n Hop Hn) as [Hmore Hadv].
  unfold read_body in Hbody. rewrite (requested_length offset Hoff) in Hbody.
  fold n in Hbody. destruct (op n) as [r data]. cbn [fst snd] in *.
  injection Hbody as <- <- <-.
  set (more := fresh r data) in *.
  assert (Hoff' : (if 0 <? r then offset + r else offset) = offset + len more).
  { rewrite <- Hadv. destruct (0 <? r); lia. }
  rewrite Hoff'.
  assert (Htail : len tail = RECV_BUFFER_SIZE - offset).
  { rewrite Hbuf, len_app in Hsize. lia. }
  assert (Hstore :
    exists tail',
      store (if 0 <? r then store (_buffer h) (Z.to_nat offset) data
             else _buffer h)
        (Z.to_nat (offset + len more)) [NUL]
      = (got ++ more) ++ NUL :: tail').
  { assert (Hidx : Z.to_nat (offset + len more) = List.length (got ++ more)).
    { rewrite <- Hgot, <- len_app. unfold len. now rewrite Nat2Z.id. }
    assert (Hidx0 : Z.to_nat offset = List.length got).
    { rewrite <- Hgot. unfold len. now rewrite Nat2Z.id. }
    rewrite Hidx. unfold more, fresh in *.
    destruct (0 <? r) eqn:E.
    - assert (Hroom : (List.length data < List.length tail)%nat).
      { unfold len, n, RECV_BUFFER_SIZE in *. lia. }
      rewrite Hbuf, Hidx0, store_after, store_here by lia.
      rewrite app_assoc. eexists. apply store_terminator.
      intros Hnil. apply (f_equal (@List.length byte)) in Hnil.
      rewrite length_skipn in Hnil. cbn [List.length] in Hnil. lia.
    - rewrite app_nil_r, Hbuf. eexists. apply store_terminator.
      intros ->. unfold len, RECV_BUFFER_SIZE in *.
      cbn [List.length] in Htail. lia. }
  destruct Hstore as [tail' Hstore].
  split; [reflexivity | split; [reflexivity | split; [exact Hmore |]]].
  cbn [_buffer]. split; [now exists tail' |].
  unfold accumulated. cbn [_buffer _got200 _gothello].
  rewrite Hstore, H200, Hhello, !strstr_terminated.
  rewrite <- !orb_assoc, !scan_accumulates.
  repeat split.
  - rewrite <- Hstore. unfold len in *. rewrite store_length.
    destruct (0 <? r); rewrite ?store_length; exact Hsize.
  - lia.
  - unfold n in Hmore. lia.
  - rewrite len_app. lia.
  - now eexists.
Qed.

Lemma read_loop_cons (op : read_op) (ops : list read_op) (h : HelloHTTPS)
    (offset : Z) (ret : Z) (h' : HelloHTTPS) (offset' : Z) :
  read_body op h offset = (ret, h', offset') ->
  let n := size_t (size_t RECV_BUFFER_SIZE - size_t offset - 1) in
  let step := mkStep offset n ret (snd (op n)) h' offset' in
  read_loop (op :: ops) h offset
  = if negb (both_found h') && retry ret
    then (step :: fst (read_loop ops h' offset'),
          snd (read_loop ops h' offset'))
    else ([step], Exited ret (h', offset')).
Proof.
  intros Hbody n step. cbn [read_loop]. rewrite Hbody. fold n. fold step.
  unfold both_found, retry. rewrite negb_andb.
  destruct ((negb (_got200 h') || negb (_gothello h'))
            && ((0 <? ret) || would_block ret)); [| reflexivity].
  now destruct (read_loop ops h' offset').
Qed.

Lemma read_loop_run (was200 washello : bool) (ops : list read_op) :
  forall h offset got,
    Forall honours_length ops ->
    accumulated was200 washello h offset got ->
    (forall pre s post,
       fst (read_loop ops h offset) = pre ++ s :: post ->
       step_ok was200 washello s (got ++ received (pre ++ [s]))) /\
    accumulated was200 washello
      (fst (state_of (snd (read_loop ops h offset))))
      (snd (state_of (snd (read_loop ops h offset))))
      (got ++ received (fst (read_loop ops h offset))).
Proof.
  induction ops as [| op ops IH]; intros h offset got Hops Hacc.
  - simpl. split.
    + intros pre s post H. destruct pre; discriminate.
    + now rewrite app_nil_r.
  - apply Forall_cons_iff in Hops as [Hop Hops].
    destruct (read_body op h offset) as [[ret h'] offset'] eqn:Hbody.
    destruct (read_body_spec _ _ _ _ _ _ _ _ _ Hacc Hop Hbody)
      as (Hret & Hoff' & Hmore & Htail & Hacc').
    rewrite (read_loop_cons _ ops _ _ _ _ _ Hbody).
    assert (Hlen : size_t (size_t RECV_BUFFER_SIZE - size_t offset - 1)
                   = RECV_BUFFER_SIZE - 1 - offset).
    { apply requested_length. apply Hacc. }
    rewrite Hlen in *.
    set (n := RECV_BUFFER_SIZE - 1 - offset) in *.
    set (step := mkStep offset n ret (snd (op n)) h' offset').
    assert (Hstep : step_ok was200 washello step
                      (got ++ fresh ret (snd (op n)))).
    { unfold step_ok, step. cbn [rd_obj rd_offset rd_at rd_length rd_ret
                                 rd_data].
      split; [exact Hacc' |].
      split; [destruct Htail as [tail Htail]; exists tail; exact Htail |].
      split; [apply Hacc |].
      split; [reflexivity |].
      split; [exact Hoff' | apply Hmore]. }
    destruct (IH h' offset' (got ++ fresh ret (snd (op n))) Hops Hacc')
      as [IHsteps IHend].
    destruct (negb (both_found h') && retry ret).
    + cbn [fst snd]. split.
      * intros pre s post H. destruct pre as [| p pre].
        -- injection H as <- _. simpl. now rewrite app_nil_r.
        -- injection H as <- H. specialize (IHsteps pre s post H).
           simpl. fold step. cbn [rd_ret rd_data step].
           now rewrite app_assoc.
      * simpl. cbn [rd_ret rd_data]. now rewrite app_assoc.
    + cbn [fst snd state_of]. split.
      * intros pre s post H. destruct pre as [| p pre].
        -- injection H as <- _. simpl. now rewrite app_nil_r.
        -- injection H as _ H. destruct pre; discriminate.
      * simpl. cbn [rd_ret rd_data]. now rewrite app_nil_r.
Qed.

Lemma accumulated_on_entry (h : HelloHTTPS) :
  len (_buffer h) = RECV_BUFFER_SIZE ->
  accumulated (_got200 h) (_gothello h) h 0 [].
Proof.
  intros H. unfold accumulated. rewrite H.
  change (contains (bytes HTTPS_OK_STR) (c_str [])) with false.
  change (contains (bytes HTTPS_HELLO_STR) (c_str [])) with false.
  rewrite !orb_false_r. unfold RECV_BUFFER_SIZE.
  repeat split; try reflexivity; try lia.
  now exists (_buffer h).
Qed.

Lemma nth_error_cursor (got tail : list byte) (c : byte) :
  nth_error (got ++ c :: tail) (Z.to_nat (len got)) = Some c.
Proof.
  unfold len. rewrite Nat2Z.id, nth_error_app2 by lia.
  now rewrite Nat.sub_diag.
Qed.

Lemma step_ok_bounded (was200 washello : bool) (s : read_step)
    (got : list byte) :
  step_ok was200 washello s got -> bounded_and_terminated s.
Proof.
  intros (Hacc & [tail Hbuf] & Hat & Hlen & Hoff & Hmore).
  destruct Hacc as (Hsize & Hcur & Hgot & _).
  unfold bounded_and_terminated.
  split; [exact Hcur | split; [| split; [exact Hsize |]]].
  - rewrite Hbuf, <- Hgot. apply nth_error_cursor.
  - unfold written. apply Forall_app. split.
    + apply Forall_forall. intros i Hi. apply in_map_iff in Hi.
      destruct Hi as (k & <- & Hk). apply in_seq in Hk.
      unfold inside, len in *. lia.
    + constructor; [| constructor]. unfold inside. lia.
Qed.

(** C3: when every call of the read operation returns no more than it was
    asked for, then after every pass of the read loop the cursor is at most
    [RECV_BUFFER_SIZE - 1], the byte at the cursor is the terminator, and
    every index the pass wrote to lies inside the array; the cursor the
    loop is left with obeys the same bound. *)
Theorem read_loop_buffer_bounds (ops : list read_op) (h : HelloHTTPS) :
  Forall honours_length ops ->
  len (_buffer h) = RECV_BUFFER_SIZE ->
  Forall bounded_and_terminated (fst (read_loop ops h 0)) /\
  0 <= snd (state_of (snd (read_loop ops h 0))) <= RECV_BUFFER_SIZE - 1.
Proof.
  intros Hops Hsize.
  destruct (read_loop_run _ _ ops h 0 [] Hops (accumulated_on_entry h Hsize))
    as [Hsteps Hend].
  split.
  - apply Forall_forall. intros s Hs. apply in_split in Hs.
    destruct Hs as (pre & post & Hs).
    exact (step_ok_bounded _ _ _ _ (Hsteps pre s post Hs)).
  - apply Hend.
Qed.

Lemma ready_honours_length (s : string) : honours_length (ready s).
Proof.
  intros n Hn. unfold ready. cbn [fst snd]. split; [| reflexivity].
  unfold len. rewrite length_firstn. lia.
Qed.

Lemma not_ready_honours_length : honours_length not_ready.
Proof.
  intros n Hn. unfold not_ready. cbn [fst snd].
  pose proof want_read_negative. split; lia.
Qed.

Lemma closed_honours_length : honours_length closed.
Proof. intros n Hn. unfold closed. cbn [fst snd]. split; lia. Qed.

Lemma ops_example_honour_length : Forall honours_length ops_example.
Proof.
  unfold ops_example.
  repeat (apply Forall_cons;
          [first [ apply ready_honours_length
                 | exact not_ready_honours_length
                 | exact closed_honours_length ] |]).
  apply Forall_nil.
Qed.

Lemma hello_example_size : len (_buffer hello_example) = RECV_BUFFER_SIZE.
Proof. vm_compute. reflexivity. Qed.

Lemma read_loop_buffer_bounds_witness :
  Forall bounded_and_terminated (fst (read_loop ops_example hello_example 0))
  /\ 0 <= snd (state_of (snd (read_loop ops_example hello_example 0)))
     <= RECV_BUFFER_SIZE - 1.
Proof.
  apply (read_loop_buffer_bounds ops_example hello_example).
  - exact ops_example_honour_length.
  - exact hello_example_size.
Defined.

(** ** The marker flags *)

Lemma found_le_refl (a : HelloHTTPS) : found_le a a.
Proof. split; trivial. Qed.

Lemma found_le_trans (a b c : HelloHTTPS) :
  found_le a b -> found_le b c -> found_le a c.
Proof. intros [H1 H2] [H3 H4]. split; auto. Qed.

Lemma read_body_keeps_flags (op : read_op) (h : HelloHTTPS) (offset : Z)
    (ret : Z) (h' : HelloHTTPS) (offset' : Z) :
  read_body op h offset = (ret, h', offset') -> found_le h h'.
Proof.
  unfold read_body. destruct (op _) as [r data]. intros H.
  injection H as _ <- _. split; cbn [_got200 _gothello]; intros ->;
    reflexivity.
Qed.

Lemma read_loop_keeps_flags (ops : list read_op) :
  forall h offset,
    found_le h (fst (state_of (snd (read_loop ops h offset)))) /\
    Forall (fun s => found_le h (rd_obj s)) (fst (read_loop ops h offset)) /\
    Forall (fun s => found_le (rd_obj s)
                       (fst (state_of (snd (read_loop ops h offset)))))
      (fst (read_loop ops h offset)) /\
    ForallOrdPairs (fun s s' => found_le (rd_obj s) (rd_obj s'))
      (fst (read_loop ops h offset)).
Proof.
  induction ops as [| op ops IH]; intros h offset.
  - simpl. repeat split; trivial; constructor.
  - destruct (read_body op h offset) as [[ret h'] offset'] eqn:Hbody.
    pose proof (read_body_keeps_flags _ _ _ _ _ _ Hbody) as Hle.
    rewrite (read_loop_cons _ ops _ _ _ _ _ Hbody).
    destruct (IH h' offset') as (IHend & IHfrom & IHto & IHpairs).
    destruct (negb (both_found h') && retry ret); cbn [fst snd state_of].
    + split; [exact (found_le_trans _ _ _ Hle IHend) |].
      split; [| split].
      * constructor; [exact Hle |].
        eapply Forall_impl; [| exact IHfrom].
        intros s Hs. exact (found_le_trans _ _ _ Hle Hs).
      * constructor; [exact IHend | exact IHto].
      * constructor; [exact IHfrom | exact IHpairs].
    + split; [exact Hle |]. split; [| split].
      * constructor; [exact Hle | constructor].
      * constructor; [apply found_le_refl | constructor].
      * constructor; [constructor | constructor].
Qed.

(** The flags printed by the status messages are those the loop ended
    with. *)
Lemma read_response_reports (e : env) (h : HelloHTTPS)
    (t : list event) (n : Z) (g200 ghello : bool) (msg : list byte)
    (h' : HelloHTTPS) :
  read_response e h = (t, Reported n g200 ghello msg, h') ->
  exists ret last offset,
    snd (read_loop (read_results e) h 0) = Exited ret (last, offset) /\
    (ret <? 0) = false /\
    n = size_t offset /\
    g200 = _got200 last /\ ghello = _gothello last /\
    _buffer h' = store (_buffer last) (Z.to_nat (size_t offset)) [NUL] /\
    msg = c_str (_buffer h') /\
    t = map read_event (fst (read_loop (read_results e) h 0))
        ++ [ev_close; ev_print_status n g200 ghello msg].
Proof.
  unfold read_response.
  destruct (read_loop (read_results e) h 0) as [steps stop].
  destruct stop as [ret [last offset] | [last offset]]; [| discriminate].
  destruct (ret <? 0) eqn:E; [discriminate |].
  intros H. injection H as <- <- <- <- <- <-.
  exists ret, last, offset. cbn [fst snd _buffer set_buffer].
  repeat split; try reflexivity. exact E.
Qed.

(** C8: within one run of the read loop a flag that is set stays set: for
    any two passes, the later one has every flag of the earlier one, and
    so has the state the loop ends with; the status that is finally
    printed has every flag that any pass had. *)
Theorem marker_flags_monotone (e : env) (h : HelloHTTPS) (offset : Z) :
  ForallOrdPairs (fun s s' => found_le (rd_obj s) (rd_obj s'))
    (fst (read_loop (read_results e) h offset)) /\
  Forall (fun s => found_le (rd_obj s)
                     (fst (state_of (snd (read_loop (read_results e) h
                                            offset)))))
    (fst (read_loop (read_results e) h offset)) /\
  match read_response e h with
  | (_, Reported _ g200 ghello _, _) =>
      Forall (fun s => (_got200 (rd_obj s) = true -> g200 = true) /\
                       (_gothello (rd_obj s) = true -> ghello = true))
        (fst (read_loop (read_results e) h 0))
  | _ => True
  end.
Proof.
  destruct (read_loop_keeps_flags (read_results e) h offset)
    as (_ & _ & Hto & Hpairs).
  split; [exact Hpairs | split; [exact Hto |]].
  destruct (read_response e h) as [[t o] h'] eqn:Hr.
  destruct o as [| n g200 ghello msg |]; trivial.
  destruct (read_response_reports _ _ _ _ _ _ _ _ Hr)
    as (ret & last & off & Hstop & _ & _ & -> & -> & _).
  destruct (read_loop_keeps_flags (read_results e) h 0) as (_ & _ & Hto0 & _).
  rewrite Hstop in Hto0. exact Hto0.
Qed.

(** ** Runs of the read loop *)

Lemma read_loop_app (before : list read_op) :
  forall rest h offset,
    read_loop (before ++ rest) h offset
    = match snd (read_loop before h offset) with
      | Calling (h', offset') =>
          (fst (read_loop before h offset) ++ fst (read_loop rest h' offset'),
           snd (read_loop rest h' offset'))
      | Exited _ _ => read_loop before h offset
      end.
Proof.
  induction before as [| op before IH]; intros rest h offset.
  - simpl. now destruct (read_loop rest h offset).
  - destruct (read_body op h offset) as [[ret h'] offset'] eqn:Hbody.
    change ((op :: before) ++ rest) with (op :: (before ++ rest)).
    rewrite !(read_loop_cons _ _ _ _ _ _ _ Hbody).
    destruct (negb (both_found h') && retry ret); [| reflexivity].
    rewrite IH. cbn [fst snd].
    destruct (snd (read_loop before h' offset')) as [r st | [h1 o1]] eqn:E;
      rewrite ?E; reflexivity.
Qed.

(** The last store of [startTest], [_buffer[_bpos] = 0], leaves the
    received bytes as the C string of the array. *)
Lemma final_terminator (was200 washello : bool) (h : HelloHTTPS)
    (offset : Z) (got : list byte) :
  accumulated was200 washello h offset got ->
  size_t offset = offset /\
  c_str (store (_buffer h) (Z.to_nat (size_t offset)) [NUL]) = c_str got.
Proof.
  intros (Hsize & Hoff & Hgot & [tail Hbuf] & _).
  assert (Hsmall : size_t offset = offset).
  { apply size_t_small. unfold RECV_BUFFER_SIZE in Hoff. lia. }
  split; [exact Hsmall |]. rewrite Hsmall, Hbuf, <- Hgot.
  unfold len at 1. rewrite Nat2Z.id, store_terminator.
  - apply c_str_terminated.
  - intros ->. rewrite Hbuf, app_nil_r in Hsize.
    unfold RECV_BUFFER_SIZE in *. lia.
Qed.

(** Once a pass has both flags set the loop is over, and the result of
    that pass was positive: the flags were not both set before the pass
    and they change only when bytes arrive. *)
Lemma read_loop_success (was200 washello : bool) (ops : list read_op) :
  forall h offset got,
    Forall honours_length ops ->
    accumulated was200 washello h offset got ->
    both_found h = false ->
    forall pre s post,
      fst (read_loop ops h offset) = pre ++ s :: post ->
      both_found (rd_obj s) = true ->
      post = [] /\
      snd (read_loop ops h offset)
      = Exited (rd_ret s) (rd_obj s, rd_offset s) /\
      0 < rd_ret s.
Proof.
  induction ops as [| op ops IH];
    intros h offset got Hops Hacc Hnot pre s post Hsplit Hboth.
  - destruct pre; discriminate.
  - apply Forall_cons_iff in Hops as [Hop Hops].
    destruct (read_body op h offset) as [[ret h'] offset'] eqn:Hbody.
    destruct (read_body_spec _ _ _ _ _ _ _ _ _ Hacc Hop Hbody)
      as (Hret & Hoff' & Hmore & Htail & Hacc').
    rewrite (read_loop_cons _ ops _ _ _ _ _ Hbody) in *.
    destruct (negb (both_found h') && retry ret) eqn:Hcond;
      cbn [fst snd] in *.
    + apply andb_true_iff in Hcond as [Hnot' _].
      apply negb_true_iff in Hnot'.
      destruct pre as [| p pre].
      * injection Hsplit as <- _. cbn [rd_obj] in Hboth. congruence.
      * injection Hsplit as _ Hsplit.
        exact (IH _ _ _ Hops Hacc' Hnot' pre s post Hsplit Hboth).
    + destruct pre as [| p pre].
      * injection Hsplit as <- <-. cbn [rd_obj rd_ret rd_offset] in *.
        split; [reflexivity | split; [reflexivity |]].
        destruct (0 <? ret) eqn:E; [now apply Z.ltb_lt |]. exfalso.
        unfold fresh in Hacc'. rewrite E, app_nil_r in Hacc'.
        destruct Hacc as (_ & _ & _ & _ & H200 & Hhello).
        destruct Hacc' as (_ & _ & _ & _ & H200' & Hhello').
        unfold both_found in *. congruence.
      * injection Hsplit as _ Hsplit. destruct pre; discriminate.
Qed.

(** The status of a read phase entered with both flags cleared. *)
Lemma read_response_status (e : env) (h : HelloHTTPS) :
  Forall honours_length (read_results e) ->
  len (_buffer h) = RECV_BUFFER_SIZE ->
  _got200 h = false ->
  _gothello h = false ->
  (forall pre s post,
     fst (read_loop (read_results e) h 0) = pre ++ s :: post ->
     both_found (rd_obj s) = true ->
     post = [] /\
     Forall (fun p => both_found (rd_obj p) = false) pre /\
     exists t msg h',
       read_response e h = (t, Reported (rd_offset s) true true msg, h')) /\
  (forall t n g200 ghello msg h',
     read_response e h = (t, Reported n g200 ghello msg, h') ->
     msg = c_str (_buffer h') /\
     msg = c_str (received (fst (read_loop (read_results e) h 0))) /\
     (g200 = true <-> occurs (bytes HTTPS_OK_STR) msg) /\
     (ghello = true <-> occurs (bytes HTTPS_HELLO_STR) msg) /\
     (g200 && ghello = true <->
      occurs (bytes HTTPS_OK_STR) msg /\ occurs (bytes HTTPS_HELLO_STR) msg)).
Proof.
  intros Hops Hsize H200 Hhello.
  pose proof (accumulated_on_entry h Hsize) as Hacc.
  rewrite H200, Hhello in Hacc.
  assert (Hnot : both_found h = false)
    by (unfold both_found; now rewrite H200).
  destruct (read_loop_run _ _ _ h 0 [] Hops Hacc) as [Hsteps Hend].
  split.
  - intros pre s post Hsplit Hboth.
    destruct (read_loop_success _ _ _ _ _ _ Hops Hacc Hnot _ _ _ Hsplit Hboth)
      as (Hpost & Hstop & Hpos).
    split; [exact Hpost | split].
    + apply Forall_forall. intros p Hp.
      destruct (both_found (rd_obj p)) eqn:Hp'; [| reflexivity]. exfalso.
      apply in_split in Hp. destruct Hp as (a & b & ->).
      rewrite <- app_assoc in Hsplit. cbn [app] in Hsplit.
      destruct (read_loop_success _ _ _ _ _ _ Hops Hacc Hnot _ _ _ Hsplit Hp')
        as (Hnil & _). destruct b; discriminate.
    + unfold read_response.
      destruct (read_loop (read_results e) h 0) as [steps stop].
      cbn [fst snd] in *. subst stop.
      assert (Hge : (rd_ret s <? 0) = false) by (apply Z.ltb_ge; lia).
      rewrite Hge. cbn [state_of fst snd] in Hend.
      destruct (final_terminator _ _ _ _ _ Hend) as [-> _].
      unfold both_found in Hboth. apply andb_true_iff in Hboth as [B1 B2].
      cbn [set_buffer _got200 _gothello]. rewrite B1, B2.
      now eexists _, _, _.
  - intros t n g200 ghello msg h' Hr.
    destruct (read_response_reports _ _ _ _ _ _ _ _ Hr)
      as (ret & last & off & Hstop & _ & _ & -> & -> & Hbuf & -> & _).
    rewrite Hstop in Hend. cbn [state_of fst snd] in Hend.
    destruct (final_terminator _ _ _ _ _ Hend) as [_ Hstr].
    rewrite Hbuf, Hstr.
    destruct Hend as (_ & _ & _ & _ & G200 & Ghello).
    rewrite G200, Ghello. cbn [orb]. rewrite app_nil_l.
    split; [reflexivity | split; [reflexivity |]].
    rewrite andb_true_iff, !contains_spec. tauto.
Qed.

Lemma env_success_honours_length :
  Forall honours_length (read_results env_success).
Proof.
  cbn [read_results env_success].
  repeat (apply Forall_cons;
          [first [ apply ready_honours_length
                 | exact not_ready_honours_length ] |]).
  apply Forall_nil.
Qed.

(** The run of [env_success]: three passes, then the status with both
    flags set. *)
Example read_response_env_success :
  let '(t, o, _) := read_response env_success hello_example in
  t = [ev_ssl_read 0 599 15; ev_ssl_read 15 584 MBEDTLS_ERR_SSL_WANT_READ;
       ev_ssl_read 15 584 12; ev_close;
       ev_print_status 27 true true (bytes "HTTP/1.1 200 OKHello world!")] /\
  o = Reported 27 true true (bytes "HTTP/1.1 200 OKHello world!").
Proof. vm_compute. split; reflexivity. Qed.

(** ** A clean close *)

Lemma read_loop_calling (ops : list read_op) :
  forall h offset h1 offset1,
    snd (read_loop ops h offset) = Calling (h1, offset1) ->
    both_found h = false ->
    both_found h1 = false.
Proof.
  induction ops as [| op ops IH]; intros h offset h1 offset1 Hstop Hnot.
  - simpl in Hstop. injection Hstop as <- _. exact Hnot.
  - destruct (read_body op h offset) as [[ret h'] offset'] eqn:Hbody.
    rewrite (read_loop_cons _ ops _ _ _ _ _ Hbody) in Hstop.
    destruct (negb (both_found h') && retry ret) eqn:Hcond;
      cbn [snd] in Hstop; [| discriminate].
    apply andb_true_iff in Hcond as [Hnot' _].
    apply negb_true_iff in Hnot'. exact (IH _ _ _ _ Hstop Hnot').
Qed.

(** A call that returns 0 in a read phase entered with both flags
    cleared. *)
Lemma read_response_clean_close (e : env) (h : HelloHTTPS)
    (before : list read_op) (op : read_op) (rest : list read_op)
    (h1 : HelloHTTPS) (offset : Z) :
  read_results e = before ++ op :: rest ->
  Forall honours_length (read_results e) ->
  len (_buffer h) = RECV_BUFFER_SIZE ->
  _got200 h = false ->
  _gothello h = false ->
  snd (read_loop before h 0) = Calling (h1, offset) ->
  fst (op (RECV_BUFFER_SIZE - 1 - offset)) = 0 ->
  let got := received (fst (read_loop before h 0)) in
  let g200 := contains (bytes HTTPS_OK_STR) (c_str got) in
  let ghello := contains (bytes HTTPS_HELLO_STR) (c_str got) in
  both_found h1 = false /\
  g200 = _got200 h1 /\ ghello = _gothello h1 /\ len got = offset /\
  exists h',
    read_response e h
    = (map read_event (fst (read_loop before h 0))
         ++ [ev_ssl_read offset (RECV_BUFFER_SIZE - 1 - offset) 0;
             ev_close;
             ev_print_status offset g200 ghello (c_str got)],
       Reported offset g200 ghello (c_str got),
       h').
Proof.
  intros He Hops Hsize H200 Hhello Hstop Hzero got g200 ghello.
  rewrite He in Hops. apply Forall_app in Hops as [Hbefore Hrest].
  apply Forall_cons_iff in Hrest as [Hop _].
  pose proof (accumulated_on_entry h Hsize) as Hacc.
  rewrite H200, Hhello in Hacc.
  assert (Hnot : both_found h = false)
    by (unfold both_found; now rewrite H200).
  destruct (read_loop_run _ _ _ h 0 [] Hbefore Hacc) as [_ Hend].
  rewrite Hstop in Hend. cbn [state_of fst snd app] in Hend. fold got in Hend.
  split; [exact (read_loop_calling _ _ _ _ _ Hstop Hnot) |].
  split; [symmetry; apply Hend |]. split; [symmetry; apply Hend |].
  split; [apply Hend |].
  destruct (read_body op h1 offset) as [[ret h2] offset2] eqn:Hbody.
  destruct (read_body_spec _ _ _ _ _ _ _ _ _ Hend Hop Hbody)
    as (Hret & Hoff2 & _ & _ & Hacc2).
  rewrite Hzero in Hret. subst ret.
  change (fresh 0 _) with (@nil byte) in *.
  rewrite app_nil_r in Hacc2.
  change (len []) with 0 in Hoff2. rewrite Z.add_0_r in Hoff2. subst offset2.
  assert (Hlen : size_t (size_t RECV_BUFFER_SIZE - size_t offset - 1)
                 = RECV_BUFFER_SIZE - 1 - offset).
  { apply requested_length. apply Hend. }
  unfold read_response.
  rewrite He, read_loop_app, Hstop, (read_loop_cons _ rest _ _ _ _ _ Hbody).
  change (retry 0) with false. rewrite andb_false_r. cbn [fst snd].
  change (0 <? 0) with false. cbv iota.
  destruct (final_terminator _ _ _ _ _ Hacc2) as [Hsmall Hstr].
  rewrite map_app. cbn [map]. unfold read_event at 2.
  cbn [rd_at rd_length rd_ret].
  unfold percent_s. rewrite Hlen, Hstr, Hsmall.
  cbn [set_buffer _got200 _gothello].
  destruct Hacc2 as (_ & _ & _ & _ & -> & ->). cbn [orb].
  fold g200 ghello. rewrite <- app_assoc. cbn [app].
  now eexists.
Qed.

(** ** The response and the bytes of the request *)

Lemma observe_received (l1 : list read_step) :
  forall l2, map observe l1 = map observe l2 ->
    received l1 = received l2 /\ map read_event l1 = map read_event l2.
Proof.
  induction l1 as [| s1 l1 IH]; intros [| s2 l2] H; try discriminate.
  - split; reflexivity.
  - cbn [map] in H. unfold observe at 1 3 in H.
    injection H as Hat Hlen Hret Hdata _ _ _ _ Hl.
    destruct (IH l2 Hl) as [Hr He].
    unfold received in *. cbn [flat_map map]. unfold read_event at 1 3.
    now rewrite Hr, He, Hat, Hlen, Hret, Hdata.
Qed.

Lemma accumulated_same_flags (was200 washello : bool) (h1 h2 : HelloHTTPS)
    (o1 o2 : Z) (got : list byte) :
  accumulated was200 washello h1 o1 got ->
  accumulated was200 washello h2 o2 got ->
  o1 = o2 /\ _got200 h1 = _got200 h2 /\ _gothello h1 = _gothello h2.
Proof.
  intros (_ & _ & L1 & _ & A1 & B1) (_ & _ & L2 & _ & A2 & B2).
  repeat split; congruence.
Qed.

Lemma read_loop_lockstep (was200 washello : bool) (ops : list read_op) :
  forall h1 h2 offset got,
    Forall honours_length ops ->
    accumulated was200 washello h1 offset got ->
    accumulated was200 washello h2 offset got ->
    map observe (fst (read_loop ops h1 offset))
    = map observe (fst (read_loop ops h2 offset)) /\
    same_end (snd (read_loop ops h1 offset)) (snd (read_loop ops h2 offset)).
Proof.
  induction ops as [| op ops IH]; intros h1 h2 offset got Hops Hacc1 Hacc2.
  - simpl. split; [reflexivity | exact I].
  - apply Forall_cons_iff in Hops as [Hop Hops].
    destruct (read_body op h1 offset) as [[r1 a1] o1] eqn:Hbody1.
    destruct (read_body op h2 offset) as [[r2 a2] o2] eqn:Hbody2.
    destruct (read_body_spec _ _ _ _ _ _ _ _ _ Hacc1 Hop Hbody1)
      as (Hr1 & Ho1 & _ & [tail1 Hbuf1] & Hacc1').
    destruct (read_body_spec _ _ _ _ _ _ _ _ _ Hacc2 Hop Hbody2)
      as (Hr2 & Ho2 & _ & [tail2 Hbuf2] & Hacc2').
    rewrite <- Hr1 in Hr2. rewrite Hr2 in *. clear Hr2 r2.
    rewrite <- Ho1 in Ho2. rewrite Ho2 in *. clear Ho2 o2.
    destruct (accumulated_same_flags _ _ _ _ _ _ _ Hacc1' Hacc2')
      as (_ & F200 & Fhello).
    rewrite (read_loop_cons _ ops _ _ _ _ _ Hbody1).
    rewrite (read_loop_cons _ ops _ _ _ _ _ Hbody2).
    assert (Hboth : both_found a2 = both_found a1)
      by (unfold both_found; congruence).
    rewrite Hboth.
    assert (Hobs :
      forall n : Z,
        observe (mkStep offset n r1 (snd (op n)) a1 o1)
        = observe (mkStep offset n r1 (snd (op n)) a2 o1)).
    { intros n. unfold observe.
      cbn [rd_at rd_length rd_ret rd_data rd_offset rd_obj].
      rewrite Hbuf1, Hbuf2, !c_str_terminated, F200, Fhello. reflexivity. }
    destruct (IH a1 a2 o1 _ Hops Hacc1' Hacc2') as [IHobs IHend].
    destruct (negb (both_found a1) && retry r1); cbn [fst snd map].
    + split; [now rewrite Hobs, IHobs | exact IHend].
    + split; [now rewrite Hobs | reflexivity].
Qed.

(** C10: the read loop and the status do not depend on what the array held
    before the first read.  For two objects that differ only by the bytes
    of their arrays, as after the render of two different requests, the
    passes of the read loop make the same calls, get the same results and
    have the same cursor, flags and scanned C string, and [startTest] ends
    with the same trace and the same outcome.  After each pass the scanned
    C string is that of the bytes received so far, and each flag is its
    value on entry or-ed with the occurrence of its marker in it. *)
Theorem response_ignores_request_bytes (e : env) (h1 h2 : HelloHTTPS) :
  Forall honours_length (read_results e) ->
  len (_buffer h1) = RECV_BUFFER_SIZE ->
  len (_buffer h2) = RECV_BUFFER_SIZE ->
  _got200 h1 = _got200 h2 ->
  _gothello h1 = _gothello h2 ->
  map observe (fst (read_loop (read_results e) h1 0))
  = map observe (fst (read_loop (read_results e) h2 0)) /\
  fst (read_response e h1) = fst (read_response e h2) /\
  (forall pre s post,
     fst (read_loop (read_results e) h1 0) = pre ++ s :: post ->
     let got := received (pre ++ [s]) in
     len got = rd_offset s /\
     c_str (_buffer (rd_obj s)) = c_str got /\
     _got200 (rd_obj s)
     = _got200 h1 || contains (bytes HTTPS_OK_STR) (c_str got) /\
     _gothello (rd_obj s)
     = _gothello h1 || contains (bytes HTTPS_HELLO_STR) (c_str got)).
Proof.
  intros Hops Hsize1 Hsize2 F200 Fhello.
  pose proof (accumulated_on_entry h1 Hsize1) as Hacc1.
  pose proof (accumulated_on_entry h2 Hsize2) as Hacc2.
  rewrite <- F200, <- Fhello in Hacc2.
  destruct (read_loop_lockstep _ _ _ _ _ _ _ Hops Hacc1 Hacc2)
    as [Hobs Hsame].
  destruct (read_loop_run _ _ _ h1 0 [] Hops Hacc1) as [Hsteps1 Hend1].
  destruct (read_loop_run _ _ _ h2 0 [] Hops Hacc2) as [_ Hend2].
  destruct (observe_received _ _ Hobs) as [Hrecv Hevents].
  split; [exact Hobs | split].
  - unfold read_response.
    destruct (read_loop (read_results e) h1 0) as [steps1 stop1].
    destruct (read_loop (read_results e) h2 0) as [steps2 stop2].
    cbn [fst snd] in *. rewrite <- Hrecv in Hend2. rewrite Hevents.
    destruct stop1 as [r1 [a1 o1] | [a1 o1]],
             stop2 as [r2 [a2 o2] | [a2 o2]];
      cbn [same_end state_of fst snd] in *; try contradiction.
    + subst r2. destruct (r1 <? 0); [reflexivity |].
      destruct (accumulated_same_flags _ _ _ _ _ _ _ Hend1 Hend2)
        as (<- & G200 & Ghello).
      destruct (final_terminator _ _ _ _ _ Hend1) as [_ Hstr1].
      destruct (final_terminator _ _ _ _ _ Hend2) as [_ Hstr2].
      unfold percent_s. cbn [fst set_buffer _got200 _gothello].
      now rewrite Hstr1, Hstr2, G200, Ghello.
    + reflexivity.
  - intros pre s post Hsplit got.
    destruct (Hsteps1 pre s post Hsplit) as (Hacc & [tail Hbuf] & _).
    cbn [app] in Hacc, Hbuf. fold got in Hacc, Hbuf.
    split; [apply Hacc |]. split; [| split; apply Hacc].
    rewrite Hbuf. apply c_str_terminated.
Qed.

Lemma response_ignores_request_bytes_witness :
  map observe
    (fst (read_loop (read_results env_success)
            (fill_request_buffer main_path hello_example) 0))
  = map observe
      (fst (read_loop (read_results env_success)
              (fill_request_buffer "/index.html" hello_example) 0)) /\
  fst (read_response env_success (fill_request_buffer main_path hello_example))
  = fst (read_response env_success (fill_request_buffer "/index.html" hello_example)).
Proof.
  destruct (response_ignores_request_bytes env_success
              (fill_request_buffer main_path hello_example)
              (fill_request_buffer "/index.html" hello_example))
    as (H1 & H2 & _).
  - exact env_success_honours_length.
  - vm_compute. reflexivity.
  - vm_compute. reflexivity.
  - reflexivity.
  - reflexivity.
  - split; [exact H1 | exact H2].
Defined.

(** ** Retry loops that are never satisfied *)

Lemma write_loop_would_block (results : list Z) (L offset : Z) :
  0 <= offset < L -> L < 2 ^ 32 ->
  all_would_block results ->
  write_loop results L offset
  = (map (ev_ssl_write offset (L - offset)) results, Calling offset).
Proof.
  intros Hoff HL. induction results as [| r rs IH]; intros Hall.
  - reflexivity.
  - apply Forall_cons_iff in Hall as [Hr Hrs].
    pose proof (would_block_not_positive r Hr) as Hneg.
    rewrite write_loop_continues; rewrite Hneg.
    + rewrite (IH Hrs). cbn [fst snd map].
      rewrite (size_t_small offset) by lia.
      now rewrite size_t_small by lia.
    + rewrite Hr, size_t_small by lia. cbn [orb].
      rewrite andb_true_r. apply Z.ltb_lt. lia.
Qed.

Lemma c_str_after_terminator_at_0 (buf : list byte) :
  c_str (store buf O [NUL]) = [].
Proof. destruct buf as [| b buf]; [reflexivity |]. simpl. reflexivity. Qed.

Lemma read_loop_would_block (ops : list read_op) :
  forall h,
    Forall never_ready ops ->
    both_found h = false ->
    exists h',
      snd (read_loop ops h 0) = Calling (h', 0) /\
      List.length (fst (read_loop ops h 0)) = List.length ops /\
      Forall (fun s => would_block (rd_ret s) = true /\ rd_at s = 0)
        (fst (read_loop ops h 0)).
Proof.
  induction ops as [| op ops IH]; intros h Hops Hnot.
  - exists h. repeat split. constructor.
  - apply Forall_cons_iff in Hops as [Hop Hops].
    destruct (read_body op h 0) as [[ret h1] offset1] eqn:Hbody.
    assert (Hfacts : would_block ret = true /\ offset1 = 0 /\
                     both_found h1 = false).
    { unfold read_body in Hbody.
      pose proof (Hop (size_t (size_t RECV_BUFFER_SIZE - size_t 0 - 1)))
        as Hwb.
      destruct (op _) as [r data]. cbn [fst] in Hwb.
      rewrite (would_block_not_positive r Hwb) in Hbody.
      injection Hbody as <- <- <-. split; [exact Hwb | split; [reflexivity |]].
      unfold both_found, strstr in *. cbn [_got200 _gothello].
      change (Z.to_nat 0) with O. rewrite c_str_after_terminator_at_0.
      change (contains (bytes HTTPS_OK_STR) []) with false.
      change (contains (bytes HTTPS_HELLO_STR) []) with false.
      now rewrite !orb_false_r. }
    destruct Hfacts as (Hwb & -> & Hnot1).
    rewrite (read_loop_cons _ ops _ _ _ _ _ Hbody).
    unfold retry. rewrite Hnot1, Hwb, orb_true_r. cbn [negb andb fst snd].
    destruct (IH h1 Hops Hnot1) as (h' & Hstop & Hlen & Hall).
    exists h'. split; [exact Hstop | split].
    + cbn [List.length]. now rewrite Hlen.
    + constructor; [| exact Hall]. cbn [rd_ret rd_at]. now split.
Qed.

(** C9: no retry loop has a limit.  When every call of the handshake
    returns would-block, the handshake loop has made as many calls as there
    are results and is about to call again, however many they are, and
    [startTest] is still in it; the same holds of the write loop of a
    non-empty request, which keeps offering the whole request, and of the
    read loop, which keeps reading at offset 0. *)
Theorem retry_loops_have_no_limit (e : env) (path : string)
    (h : HelloHTTPS) :
  (all_would_block (handshake_results e) ->
   handshake_loop (handshake_results e)
   = (map ev_ssl_handshake (handshake_results e), Calling tt) /\
   handshake e path h
   = (map ev_ssl_handshake (handshake_results e), Busy Handshake, h)) /\
  (forall L,
     0 < L < 2 ^ 32 ->
     all_would_block (write_results e) ->
     write_loop (write_results e) L 0
     = (map (ev_ssl_write 0 L) (write_results e), Calling 0)) /\
  (Forall never_ready (read_results e) ->
   both_found h = false ->
   exists h',
     snd (read_loop (read_results e) h 0) = Calling (h', 0) /\
     List.length (fst (read_loop (read_results e) h 0))
     = List.length (read_results e)).
Proof.
  split; [| split].
  - intros Hall.
    assert (Hloop : handshake_loop (handshake_results e)
                    = (map ev_ssl_handshake (handshake_results e),
                       Calling tt)).
    { rewrite <- (app_nil_r (handshake_results e)) at 1.
      rewrite (handshake_loop_retries _ [] Hall). simpl.
      now rewrite app_nil_r. }
    split; [exact Hloop |]. unfold handshake. now rewrite Hloop.
  - intros L HL Hall.
    rewrite (write_loop_would_block _ L 0) by (lia || exact Hall).
    now rewrite Z.sub_0_r.
  - intros Hall Hnot.
    destruct (read_loop_would_block _ h Hall Hnot) as (h' & H1 & H2 & _).
    now exists h'.
Qed.

Lemma never_ready_not_ready : never_ready not_ready.
Proof. intros n. reflexivity. Qed.

Lemma retry_loops_have_no_limit_witness :
  handshake env_silent main_path hello_example
  = (map ev_ssl_handshake (handshake_results env_silent), Busy Handshake,
     hello_example) /\
  write_loop (write_results env_silent) 71 0
  = (map (ev_ssl_write 0 71) (write_results env_silent), Calling 0) /\
  exists h',
    snd (read_loop (read_results env_silent) hello_example 0)
    = Calling (h', 0) /\
    List.length (fst (read_loop (read_results env_silent) hello_example 0))
    = 5%nat.
Proof.
  destruct (retry_loops_have_no_limit env_silent main_path hello_example)
    as (Hh & Hw & Hr).
  split; [| split].
  - apply Hh. repeat constructor.
  - apply Hw; [lia | repeat constructor].
  - apply Hr; [| reflexivity].
    cbn [read_results env_silent repeat].
    repeat (apply Forall_cons; [exact never_ready_not_ready |]).
    apply Forall_nil.
Defined.

(** ** The session *)

Lemma after_inv (t : list event) (r : result) (t' : list event)
    (o : outcome) (h' : HelloHTTPS) :
  after t r = (t', o, h') -> exists t'', r = (t'', o, h') /\ t' = t ++ t''.
Proof.
  destruct r as [[t'' o''] h'']. unfold after. intros H.
  injection H as <- <- <-. now exists t''.
Qed.

(** The status messages are printed by the read phase, entered with the
    flags cleared and the request in the array. *)
Lemma startTest_reported (e : env) (path : string) (h : HelloHTTPS)
    (t : list event) (n : Z) (g200 ghello : bool) (msg : list byte)
    (h' : HelloHTTPS) :
  startTest e path h = (t, Reported n g200 ghello msg, h') ->
  exists t',
    read_response e (fill_request_buffer path (clear_flags h))
    = (t', Reported n g200 ghello msg, h').
Proof.
  unfold startTest.
  destruct (negb (seed_result e =? 0)); [discriminate |].
  destruct (negb (crt_parse_result e =? 0)); [discriminate |].
  destruct (negb (config_defaults_result e =? 0)); [discriminate |].
  destruct (negb (setup_result e =? 0)); [discriminate |].
  destruct (negb (connect_result e =? NSAPI_ERROR_OK)); [discriminate |].
  intros H. apply after_inv in H as (t1 & H & _).
  unfold handshake in H.
  destruct (handshake_loop (handshake_results e)) as [th stop].
  destruct stop as [ret [] | []]; [| discriminate].
  destruct (ret <? 0); [discriminate |].
  apply after_inv in H as (t2 & H & _).
  unfold send_request in H.
  destruct (write_loop _ _ _) as [tw stop].
  destruct stop as [ret' off | off]; [| discriminate].
  destruct (ret' <? 0); [discriminate |].
  apply after_inv in H as (t3 & H & _).
  now exists t3.
Qed.

Lemma read_phase_entry (path : string) (h : HelloHTTPS) :
  len (_buffer h) = RECV_BUFFER_SIZE ->
  len (_buffer (fill_request_buffer path (clear_flags h))) = RECV_BUFFER_SIZE
  /\ _got200 (fill_request_buffer path (clear_flags h)) = false
  /\ _gothello (fill_request_buffer path (clear_flags h)) = false.
Proof.
  intros Hsize. unfold fill_request_buffer.
  rewrite render_size, snprintf_positive by lia.
  cbn [set_buffer clear_flags _buffer _got200 _gothello].
  unfold len in *. rewrite store_length. auto.
Qed.

(** C5: in [startTest], whose flags are cleared at its start, with a read
    operation that returns no more than it is asked for: the read loop
    stops at the first pass that has both flags set, and the status is then
    printed with both flags set; and whenever [startTest] prints its
    status, the message is the C string of the array, made of the bytes
    received, and each flag is set exactly when its marker occurs in that
    message, so both are set exactly when both markers occur. *)
Theorem markers_decide_status (e : env) (path : string) (h : HelloHTTPS) :
  Forall honours_length (read_results e) ->
  len (_buffer h) = RECV_BUFFER_SIZE ->
  let h1 := fill_request_buffer path (clear_flags h) in
  (forall pre s post,
     fst (read_loop (read_results e) h1 0) = pre ++ s :: post ->
     both_found (rd_obj s) = true ->
     post = [] /\
     Forall (fun p => both_found (rd_obj p) = false) pre /\
     exists t msg h',
       read_response e h1 = (t, Reported (rd_offset s) true true msg, h')) /\
  (forall t n g200 ghello msg h',
     startTest e path h = (t, Reported n g200 ghello msg, h') ->
     msg = c_str (_buffer h') /\
     msg = c_str (received (fst (read_loop (read_results e) h1 0))) /\
     (g200 = true <-> occurs (bytes HTTPS_OK_STR) msg) /\
     (ghello = true <-> occurs (bytes HTTPS_HELLO_STR) msg) /\
     (g200 && ghello = true <->
      occurs (bytes HTTPS_OK_STR) msg /\ occurs (bytes HTTPS_HELLO_STR) msg)).
Proof.
  intros Hops Hsize h1.
  destruct (read_phase_entry path h Hsize) as (Hsize1 & H200 & Hhello).
  fold h1 in Hsize1, H200, Hhello.
  destruct (read_response_status e h1 Hops Hsize1 H200 Hhello) as [Hi Hii].
  split; [exact Hi |].
  intros t n g200 ghello msg h' Hrun.
  apply startTest_reported in Hrun as [t' Hrun]. fold h1 in Hrun.
  exact (Hii _ _ _ _ _ _ Hrun).
Qed.

Lemma markers_decide_status_witness :
  let h1 := fill_request_buffer main_path (clear_flags hello_example) in
  (forall pre s post,
     fst (read_loop (read_results env_success) h1 0) = pre ++ s :: post ->
     both_found (rd_obj s) = true ->
     post = [] /\
     Forall (fun p => both_found (rd_obj p) = false) pre /\
     exists t msg h',
       read_response env_success h1
       = (t, Reported (rd_offset s) true true msg, h')) /\
  (forall t n g200 ghello msg h',
     startTest env_success main_path hello_example
     = (t, Reported n g200 ghello msg, h') ->
     msg = c_str (_buffer h') /\
     msg = c_str (received (fst (read_loop (read_results env_success) h1 0)))
     /\
     (g200 = true <-> occurs (bytes HTTPS_OK_STR) msg) /\
     (ghello = true <-> occurs (bytes HTTPS_HELLO_STR) msg) /\
     (g200 && ghello = true <->
      occurs (bytes HTTPS_OK_STR) msg /\ occurs (bytes HTTPS_HELLO_STR) msg)).
Proof.
  apply (markers_decide_status env_success main_path hello_example).
  - exact env_success_honours_length.
  - exact hello_example_size.
Defined.

(** The whole of [startTest] on [env_success]. *)
Example startTest_env_success :
  snd (fst (startTest env_success main_path hello_example))
  = Reported 27 true true (bytes "HTTP/1.1 200 OKHello world!").
Proof. vm_compute. reflexivity. Qed.

(** C6: in the read phase of [startTest], the read loop is still running
    after the calls of [before], so not both markers are found, and the
    next call returns 0.  Then the loop ends with that call, no error is
    printed, and the function closes the socket and prints its status: the
    number of bytes received, and for each marker whether it occurs in the
    bytes received so far, which is what its flag was before the call. *)
Theorem clean_close_reports_status (e : env) (path : string)
    (h : HelloHTTPS) (before : list read_op) (op : read_op)
    (rest : list read_op) (h2 : HelloHTTPS) (offset : Z) :
  read_results e = before ++ op :: rest ->
  Forall honours_length (read_results e) ->
  len (_buffer h) = RECV_BUFFER_SIZE ->
  let h1 := fill_request_buffer path (clear_flags h) in
  snd (read_loop before h1 0) = Calling (h2, offset) ->
  fst (op (RECV_BUFFER_SIZE - 1 - offset)) = 0 ->
  let got := received (fst (read_loop before h1 0)) in
  let g200 := contains (bytes HTTPS_OK_STR) (c_str got) in
  let ghello := contains (bytes HTTPS_HELLO_STR) (c_str got) in
  both_found h2 = false /\
  g200 = _got200 h2 /\ ghello = _gothello h2 /\ len got = offset /\
  exists h',
    read_response e h1
    = (map read_event (fst (read_loop before h1 0))
         ++ [ev_ssl_read offset (RECV_BUFFER_SIZE - 1 - offset) 0;
             ev_close;
             ev_print_status offset g200 ghello (c_str got)],
       Reported offset g200 ghello (c_str got),
       h').
Proof.
  intros He Hops Hsize h1 Hstop Hzero.
  destruct (read_phase_entry path h Hsize) as (Hsize1 & H200 & Hhello).
  fold h1 in Hsize1, H200, Hhello.
  exact (read_response_clean_close e h1 before op rest h2 offset
           He Hops Hsize1 H200 Hhello Hstop Hzero).
Qed.

Lemma clean_close_reports_status_witness :
  let h1 := fill_request_buffer main_path (clear_flags hello_example) in
  exists h',
    read_response env_closed h1
    = ([ev_ssl_read 0 599 15; ev_ssl_read 15 584 0; ev_close;
        ev_print_status 15 true false (bytes "HTTP/1.1 200 OK")],
       Reported 15 true false (bytes "HTTP/1.1 200 OK"),
       h').
Proof.
  intros h1.
  pose proof (clean_close_reports_status env_closed main_path hello_example
                [ready "HTTP/1.1 200 OK"] closed []
                (fst (state_of (snd (read_loop [ready "HTTP/1.1 200 OK"]
                                       h1 0))))
                15) as H.
  destruct H as (_ & _ & _ & _ & h' & H).
  - reflexivity.
  - cbn [read_results env_closed].
    apply Forall_cons; [apply ready_honours_length |].
    apply Forall_cons; [exact closed_honours_length | apply Forall_nil].
  - exact hello_example_size.
  - vm_compute. reflexivity.
  - reflexivity.
  - exists h'. exact H.
Defined.

(** The whole of [startTest] on [env_closed]: the status line arrives, the
    peer closes, and the status is printed with one flag set. *)
Example startTest_env_closed :
  snd (fst (startTest env_closed main_path hello_example))
  = Reported 15 true false (bytes "HTTP/1.1 200 OK").
Proof. vm_compute. reflexivity. Qed.

(** When the set-up and the connection succeed, the handshake loop ends
    with a result that is not negative and so does the write loop,
    [startTest] is, after the calls made so far, the read phase. *)
Lemma startTest_reaches_read (e : env) (path : string) (h : HelloHTTPS)
    (th : list event) (rh : Z) (tw : list event) (rw : Z) (sent : Z) :
  seed_result e = 0 ->
  crt_parse_result e = 0 ->
  config_defaults_result e = 0 ->
  setup_result e = 0 ->
  connect_result e = NSAPI_ERROR_OK ->
  handshake_loop (handshake_results e) = (th, Exited rh tt) ->
  0 <= rh ->
  let h1 := fill_request_buffer path (clear_flags h) in
  write_loop (write_results e) (_bpos h1) 0 = (tw, Exited rw sent) ->
  0 <= rw ->
  startTest e path h
  = after ([ev_ctr_drbg_seed (chars DRBG_PERS) (sizeof DRBG_PERS) 0;
            ev_x509_crt_parse (sizeof SSL_CA_PEM) 0;
            ev_ssl_config_defaults 0;
            ev_ssl_conf_authmode_required;
            ev_ssl_setup 0;
            ev_ssl_set_hostname (chars HTTPS_SERVER_NAME);
            ev_connect (_domain h) (_port h) NSAPI_ERROR_OK]
           ++ th ++ tw ++ [ev_ssl_get_verify_result (verify_result e)])
      (read_response e h1).
Proof.
  intros Hseed Hparse Hdefaults Hsetup Hconnect Hh Hrh h1 Hw Hrw.
  unfold startTest. rewrite Hseed, Hparse, Hdefaults, Hsetup, Hconnect.
  rewrite !Z.eqb_refl. cbn [negb].
  unfold handshake. rewrite Hh.
  apply Z.ltb_ge in Hrh. rewrite Hrh.
  unfold send_request. fold h1. rewrite Hw.
  apply Z.ltb_ge in Hrw. rewrite Hrw.
  destruct (read_response e h1) as [[t o] h'].
  unfold after. cbn [clear_flags _domain _port].
  repeat rewrite <- app_assoc. reflexivity.
Qed.

(** ** The callbacks given to mbed TLS *)

Lemma would_block_want_read : would_block MBEDTLS_ERR_SSL_WANT_READ = true.
Proof. reflexivity. Qed.

Lemma would_block_want_write : would_block MBEDTLS_ERR_SSL_WANT_WRITE = true.
Proof. reflexivity. Qed.

Lemma would_block_nonneg (r : Z) : 0 <= r -> would_block r = false.
Proof.
  intros H. destruct (would_block r) eqn:E; [| reflexivity].
  apply would_block_negative in E. lia.
Qed.

(** X1: [ssl_recv] and [ssl_send] hand a would-block result to mbed TLS
    exactly when the socket reported would-block; a count of bytes is passed
    on unchanged and nothing is printed; any other negative result of the
    socket becomes -1, which none of the retry loops takes for a reason to
    call again, and its code is printed. *)
Theorem callbacks_classify_socket_results (r : Z) :
  (would_block (fst (ssl_recv r)) = true <-> r = NSAPI_ERROR_WOULD_BLOCK) /\
  (would_block (fst (ssl_send r)) = true <-> r = NSAPI_ERROR_WOULD_BLOCK) /\
  (r = NSAPI_ERROR_WOULD_BLOCK ->
   ssl_recv r = (MBEDTLS_ERR_SSL_WANT_READ, None) /\
   ssl_send r = (MBEDTLS_ERR_SSL_WANT_WRITE, None)) /\
  (0 <= r -> ssl_recv r = (r, None) /\ ssl_send r = (r, None)) /\
  (r < 0 -> r <> NSAPI_ERROR_WOULD_BLOCK ->
   ssl_recv r = (-1, Some r) /\ ssl_send r = (-1, Some r) /\
   retry (-1) = false).
Proof.
  unfold ssl_recv, ssl_send.
  destruct (NSAPI_ERROR_WOULD_BLOCK =? r) eqn:E.
  - apply Z.eqb_eq in E. subst r. cbn [fst].
    rewrite would_block_want_read, would_block_want_write.
    repeat split; intros; try reflexivity; try congruence;
      unfold NSAPI_ERROR_WOULD_BLOCK in *; lia.
  - apply Z.eqb_neq in E.
    destruct (r <? 0) eqn:N; [apply Z.ltb_lt in N | apply Z.ltb_ge in N];
      cbn [fst]; rewrite ?(would_block_nonneg r N);
      change (would_block (-1)) with false;
      repeat split; intros; try reflexivity; try congruence;
      try discriminate; lia.
Qed.

(** ** The debug callback *)

Lemma basename_loop_spec (p : list byte) :
  forall basename seen,
    c_str basename = seen ++ c_str p ->
    no_separator seen ->
    exists before,
      c_str basename = before ++ c_str (basename_loop basename p) /\
      no_separator (c_str (basename_loop basename p)) /\
      (before = [] \/
       exists before' c, before = before' ++ [c] /\ separator c = true).
Proof.
  induction p as [| c p IH]; intros basename seen Hstr Hseen.
  - exists []. simpl in *. rewrite app_nil_r in Hstr. rewrite Hstr.
    split; [reflexivity | split; [exact Hseen | now left]].
  - simpl in Hstr. cbn [basename_loop].
    destruct (Ascii.eqb c NUL) eqn:Ez.
    + exists []. rewrite app_nil_r in Hstr. rewrite Hstr.
      split; [reflexivity | split; [exact Hseen | now left]].
    + destruct (separator c) eqn:Es.
      * destruct (IH p [] eq_refl (Forall_nil _))
          as (before & Hb & Hno & Hend).
        exists (seen ++ c :: before). split; [| split].
        -- rewrite Hstr, Hb at 1. rewrite <- app_assoc. reflexivity.
        -- exact Hno.
        -- right. destruct Hend as [-> | (b' & c' & -> & Hc')].
           ++ exists seen, c. split; [reflexivity | exact Es].
           ++ exists (seen ++ c :: b'), c'. split; [| exact Hc'].
              rewrite <- app_assoc. reflexivity.
      * apply (IH basename (seen ++ [c])).
        -- rewrite Hstr, <- app_assoc. reflexivity.
        -- apply Forall_app. split; [exact Hseen |].
           constructor; [exact Es | constructor].
Qed.

(** X2: the name [my_debug] prints for a file is the end of the file's
    path: the path is some text followed by that name, the name holds no
    slash and no backslash, and the text before it is empty or ends with a
    slash or a backslash. *)
Theorem my_debug_prints_last_component (file : list byte) :
  exists before,
    c_str file = before ++ my_debug_basename file /\
    no_separator (my_debug_basename file) /\
    (before = [] \/
     exists before' c, before = before' ++ [c] /\ separator c = true).
Proof.
  unfold my_debug_basename, percent_s.
  exact (basename_loop_spec file file [] eq_refl (Forall_nil _)).
Qed.

Example my_debug_basename_of_path :
  my_debug_basename (bytes "library/ssl_tls.c" ++ [NUL])
  = bytes "ssl_tls.c" /\
  my_debug_basename (bytes "main.cpp" ++ [NUL]) = bytes "main.cpp" /\
  BACKSLASH = ascii_of_nat 92.
Proof. repeat split; reflexivity. Qed.

(** ** The shape of the traces *)

Lemma handshake_loop_events (results : list Z) :
  Forall (fun ev => phase ev = 7%nat) (fst (handshake_loop results)).
Proof.
  induction results as [| r rs IH]; simpl; [constructor |].
  destruct (negb (r =? 0) && would_block r).
  - destruct (handshake_loop rs) as [t stop]. constructor; [reflexivity |].
    exact IH.
  - repeat constructor.
Qed.

Lemma write_loop_events (results : list Z) :
  forall bpos offset,
    Forall (fun ev => phase ev = 8%nat) (fst (write_loop results bpos offset)).
Proof.
  induction results as [| r rs IH]; intros bpos offset; simpl;
    [constructor |].
  destruct (_ && _).
  - specialize (IH bpos (if 0 <? r then offset + r else offset)).
    destruct (write_loop rs bpos _) as [t stop].
    constructor; [reflexivity | exact IH].
  - repeat constructor.
Qed.

Lemma read_events (steps : list read_step) :
  Forall (fun ev => phase ev = 10%nat) (map read_event steps).
Proof. induction steps; simpl; constructor; [reflexivity | assumption]. Qed.

Lemma same_place (k : nat) (lo hi : nat) (t : list event) :
  Forall (fun ev => phase ev = k) t -> (lo <= k <= hi)%nat ->
  Forall (fun ev => (lo <= phase ev)%nat) t /\
  Forall (fun ev => (phase ev <= hi)%nat) t /\
  Forall (fun ev => (phase ev < S hi)%nat) t.
Proof.
  intros H Hk. repeat split; eapply Forall_impl; try exact H;
    intros ev Hev; cbv beta in *; lia.
Qed.

Lemma Forall_le_trans (k k' : nat) (t : list event) :
  Forall (fun ev => (phase ev <= k)%nat) t -> (k <= k')%nat ->
  Forall (fun ev => (phase ev <= k')%nat) t.
Proof.
  intros H Hk. eapply Forall_impl; [| exact H]. intros ev Hev.
  cbv beta in *. lia.
Qed.

Lemma Forall_ge_trans (k k' : nat) (t : list event) :
  Forall (fun ev => (k <= phase ev)%nat) t -> (k' <= k)%nat ->
  Forall (fun ev => (k' <= phase ev)%nat) t.
Proof.
  intros H Hk. eapply Forall_impl; [| exact H]. intros ev Hev.
  cbv beta in *. lia.
Qed.

Lemma after_ends_well (k : nat) (t : list event) (r : result) :
  ends_well k r ->
  Forall (fun ev => (phase ev <= k)%nat) t ->
  ends_well k (after t r).
Proof.
  destruct r as [[t' o] h]. unfold ends_well, trace_of, outcome_of, after.
  cbn [fst snd]. intros (Hk & body & -> & Hbody) Ht.
  split; [exact Hk |]. exists (t ++ body).
  split; [now rewrite app_assoc |].
  apply Forall_app. split; [| exact Hbody].
  exact (Forall_le_trans _ _ _ Ht Hk).
Qed.

Lemma ends_well_weaken (k k' : nat) (r : result) :
  ends_well k r -> (k' <= k)%nat -> ends_well k' r.
Proof. intros [Hk H] Hle. split; [lia | exact H]. Qed.

Ltac open_result :=
  unfold ends_well, trace_of, outcome_of;
  cbn [fst snd reach ending_of configuration].

Lemma read_response_ends_well (e : env) (h : HelloHTTPS) :
  ends_well 10 (read_response e h).
Proof.
  unfold read_response.
  destruct (read_loop (read_results e) h 0) as [steps stop].
  destruct (same_place 10 0 10 _ (read_events steps) ltac:(lia))
    as (_ & Hle & _).
  destruct stop as [ret [h' offset] | [h' offset]].
  - destruct (ret <? 0); open_result; (split; [lia |]);
      exists (map read_event steps); split; try reflexivity; exact Hle.
  - open_result. split; [lia |]. exists (map read_event steps).
    split; [now rewrite app_nil_r | exact Hle].
Qed.

Lemma send_request_ends_well (e : env) (path : string) (h : HelloHTTPS) :
  ends_well 8 (send_request e path h).
Proof.
  unfold send_request.
  pose proof (write_loop_events (write_results e)
                (_bpos (fill_request_buffer path h)) 0) as Hev.
  destruct (write_loop _ _ _) as [t stop]. cbn [fst] in Hev.
  destruct (same_place 8 0 8 _ Hev ltac:(lia)) as (_ & Hle & _).
  destruct stop as [ret offset | offset].
  - destruct (ret <? 0).
    + open_result. split; [lia |]. exists t.
      split; [reflexivity | exact Hle].
    + apply ends_well_weaken with (k := 10%nat); [| lia].
      apply after_ends_well; [apply read_response_ends_well |].
      apply Forall_app. split.
      * exact (Forall_le_trans 8 10 _ Hle ltac:(lia)).
      * constructor; [cbn [phase]; lia | constructor].
  - open_result. split; [lia |]. exists t.
    split; [now rewrite app_nil_r | exact Hle].
Qed.

Lemma handshake_ends_well (e : env) (path : string) (h : HelloHTTPS) :
  ends_well 7 (handshake e path h).
Proof.
  unfold handshake.
  pose proof (handshake_loop_events (handshake_results e)) as Hev.
  destruct (handshake_loop _) as [t stop]. cbn [fst] in Hev.
  destruct (same_place 7 0 7 _ Hev ltac:(lia)) as (_ & Hle & _).
  destruct stop as [ret [] | []].
  - destruct (ret <? 0).
    + open_result. split; [lia |]. exists t.
      split; [reflexivity | exact Hle].
    + apply ends_well_weaken with (k := 8%nat); [| lia].
      apply after_ends_well; [apply send_request_ends_well |].
      exact (Forall_le_trans 7 8 _ Hle ltac:(lia)).
  - open_result. split; [lia |]. exists t.
    split; [now rewrite app_nil_r | exact Hle].
Qed.

Lemma startTest_ends_well (e : env) (path : string) (h : HelloHTTPS) :
  ends_well 0 (startTest e path h).
Proof.
  split; [lia |].
  unfold startTest.
  destruct (negb (seed_result e =? 0)).
  { open_result. eexists [_]. split; [reflexivity |].
    repeat (constructor; [cbn [phase]; lia |]). constructor. }
  destruct (negb (crt_parse_result e =? 0)).
  { open_result. eexists [_; _]. split; [reflexivity |].
    repeat (constructor; [cbn [phase]; lia |]). constructor. }
  destruct (negb (config_defaults_result e =? 0)).
  { open_result. eexists [_; _; _]. split; [reflexivity |].
    repeat (constructor; [cbn [phase]; lia |]). constructor. }
  destruct (negb (setup_result e =? 0)).
  { open_result. eexists [_; _; _; _; _]. split; [reflexivity |].
    repeat (constructor; [cbn [phase]; lia |]). constructor. }
  destruct (negb (connect_result e =? NSAPI_ERROR_OK)).
  { open_result. eexists. split; [reflexivity |].
    repeat (constructor; [cbn [phase]; lia |]). constructor. }
  apply (after_ends_well 7).
  - apply handshake_ends_well.
  - repeat (constructor; [cbn [phase]; lia |]). constructor.
Qed.


(** ** The order of the calls *)

Lemma in_order_app (a b : list event) :
  in_order a -> in_order b ->
  (forall x y, In x a -> In y b -> may_follow x y) ->
  in_order (a ++ b).
Proof.
  unfold in_order. induction a as [| x a IH]; intros Ha Hb Hab.
  - exact Hb.
  - inversion Ha as [| ? ? Hx Ha']; subst. cbn [app]. constructor.
    + apply Forall_app. split; [exact Hx |].
      apply Forall_forall. intros y Hy. apply Hab; [now left | exact Hy].
    + apply IH; [exact Ha' | exact Hb |].
      intros u v Hu Hv. apply Hab; [now right | exact Hv].
Qed.

Lemma in_order_app_lt (k : nat) (a b : list event) :
  in_order a -> in_order b ->
  Forall (fun ev => (phase ev < k)%nat) a ->
  Forall (fun ev => (k <= phase ev)%nat) b ->
  in_order (a ++ b).
Proof.
  intros Ha Hb Hlt Hge. apply in_order_app; [exact Ha | exact Hb |].
  intros x y Hx Hy. left.
  pose proof (proj1 (Forall_forall _ _) Hlt x Hx) as Hx'.
  pose proof (proj1 (Forall_forall _ _) Hge y Hy) as Hy'.
  cbv beta in *. lia.
Qed.

Lemma repeated_of_phase (ev : event) :
  repeated ev = true <->
  (phase ev = 7 \/ phase ev = 8 \/ phase ev = 10)%nat.
Proof.
  destruct ev; cbn [repeated phase]; split; intros H;
    try discriminate; try reflexivity; try lia; auto.
Qed.

Lemma in_order_loop (k : nat) (t : list event) :
  Forall (fun ev => phase ev = k) t ->
  (k = 7 \/ k = 8 \/ k = 10)%nat ->
  in_order t.
Proof.
  intros H Hk. unfold in_order. induction H as [| x t Hx Ht IH].
  - constructor.
  - constructor; [| exact IH].
    eapply Forall_impl; [| exact Ht]. intros y Hy. cbv beta in Hy.
    right. split; [congruence |]. apply repeated_of_phase. lia.
Qed.

Lemma after_ordered (k k' : nat) (t : list event) (r : result) :
  ordered_from k r ->
  in_order t ->
  Forall (fun ev => (phase ev < k)%nat) t ->
  Forall (fun ev => (k' <= phase ev)%nat) t ->
  (k' <= k)%nat ->
  ordered_from k' (after t r).
Proof.
  destruct r as [[t' o] h]. unfold ordered_from, trace_of, after.
  cbn [fst snd]. intros [Hord Hge] Ht Hlt Hge' Hk. split.
  - exact (in_order_app_lt k _ _ Ht Hord Hlt Hge).
  - apply Forall_app. split; [exact Hge' |].
    exact (Forall_ge_trans _ _ _ Hge Hk).
Qed.

Ltac phases := repeat (constructor; [cbn [phase]; lia |]); constructor.

Ltac ordered_list :=
  unfold in_order;
  repeat (constructor;
          [repeat (constructor; [left; cbn [phase]; lia |]); constructor |]);
  constructor.

Lemma loop_then_ending_ordered (k : nat) (t ending : list event) :
  Forall (fun ev => phase ev = k) t ->
  (k = 7 \/ k = 8 \/ k = 10)%nat ->
  in_order ending ->
  Forall (fun ev => (11 <= phase ev)%nat) ending ->
  in_order (t ++ ending) /\
  Forall (fun ev => (k <= phase ev)%nat) (t ++ ending).
Proof.
  intros Ht Hk Hend Hge. split.
  - apply (in_order_app_lt 11); [exact (in_order_loop k t Ht Hk) | exact Hend
                                | | exact Hge].
    eapply Forall_impl; [| exact Ht]. intros ev Hev. cbv beta in *. lia.
  - apply Forall_app. split.
    + eapply Forall_impl; [| exact Ht]. intros ev Hev. cbv beta in *. lia.
    + eapply Forall_impl; [| exact Hge]. intros ev Hev. cbv beta in *. lia.
Qed.

Lemma read_response_ordered (e : env) (h : HelloHTTPS) :
  ordered_from 10 (read_response e h).
Proof.
  unfold read_response.
  destruct (read_loop (read_results e) h 0) as [steps stop].
  pose proof (read_events steps) as Hev.
  unfold ordered_from, trace_of.
  destruct stop as [ret [h' offset] | [h' offset]].
  - destruct (ret <? 0); cbn [fst];
      apply (loop_then_ending_ordered 10); try exact Hev; try lia;
      try ordered_list; phases.
  - cbn [fst]. rewrite <- (app_nil_r (map read_event steps)).
    apply (loop_then_ending_ordered 10); try exact Hev; try lia;
      constructor.
Qed.

Lemma send_request_ordered (e : env) (path : string) (h : HelloHTTPS) :
  ordered_from 8 (send_request e path h).
Proof.
  unfold send_request.
  pose proof (write_loop_events (write_results e)
                (_bpos (fill_request_buffer path h)) 0) as Hev.
  destruct (write_loop _ _ _) as [t stop]. cbn [fst] in Hev.
  destruct stop as [ret offset | offset].
  - destruct (ret <? 0).
    + unfold ordered_from, trace_of. cbn [fst].
      apply (loop_then_ending_ordered 8); try exact Hev; try lia;
        try ordered_list; phases.
    + apply (after_ordered 10); [apply read_response_ordered | | | | lia].
      * apply (in_order_app_lt 9);
          [exact (in_order_loop 8 t Hev ltac:(lia)) | ordered_list | |
           phases].
        eapply Forall_impl; [| exact Hev]. intros ev H. cbv beta in *. lia.
      * apply Forall_app. split; [| phases].
        eapply Forall_impl; [| exact Hev]. intros ev H. cbv beta in *. lia.
      * apply Forall_app. split; [| phases].
        eapply Forall_impl; [| exact Hev]. intros ev H. cbv beta in *. lia.
  - unfold ordered_from, trace_of. cbn [fst]. rewrite <- (app_nil_r t).
    apply (loop_then_ending_ordered 8); try exact Hev; try lia; constructor.
Qed.

Lemma handshake_ordered (e : env) (path : string) (h : HelloHTTPS) :
  ordered_from 7 (handshake e path h).
Proof.
  unfold handshake.
  pose proof (handshake_loop_events (handshake_results e)) as Hev.
  destruct (handshake_loop _) as [t stop]. cbn [fst] in Hev.
  destruct stop as [ret [] | []].
  - destruct (ret <? 0).
    + unfold ordered_from, trace_of. cbn [fst].
      apply (loop_then_ending_ordered 7); try exact Hev; try lia;
        try ordered_list; phases.
    + apply (after_ordered 8); [apply send_request_ordered | | | | lia].
      * exact (in_order_loop 7 t Hev ltac:(lia)).
      * eapply Forall_impl; [| exact Hev]. intros ev H. cbv beta in *. lia.
      * eapply Forall_impl; [| exact Hev]. intros ev H. cbv beta in *. lia.
  - unfold ordered_from, trace_of. cbn [fst]. rewrite <- (app_nil_r t).
    apply (loop_then_ending_ordered 7); try exact Hev; try lia; constructor.
Qed.

Lemma startTest_ordered (e : env) (path : string) (h : HelloHTTPS) :
  in_order (trace_of (startTest e path h)).
Proof.
  unfold startTest.
  destruct (negb (seed_result e =? 0)); [unfold trace_of; ordered_list |].
  destruct (negb (crt_parse_result e =? 0));
    [unfold trace_of; ordered_list |].
  destruct (negb (config_defaults_result e =? 0));
    [unfold trace_of; ordered_list |].
  destruct (negb (setup_result e =? 0)); [unfold trace_of; ordered_list |].
  destruct (negb (connect_result e =? NSAPI_ERROR_OK));
    [unfold trace_of; cbn [fst app]; ordered_list |].
  refine (proj1 (after_ordered 7 0 _ _ (handshake_ordered e path _)
                   _ _ _ _)).
  - ordered_list.
  - phases.
  - phases.
  - lia.
Qed.

Lemma count_phase_after (k : nat) (x : event) (t : list event) :
  Forall (may_follow x) t -> phase x = k -> repeated x = false ->
  count_phase k t = 0%nat.
Proof.
  intros H Hk Hr. unfold count_phase. induction H as [| y t Hy Ht IH].
  - reflexivity.
  - cbn [filter]. destruct (Nat.eqb (phase y) k) eqn:E; [| exact IH].
    apply Nat.eqb_eq in E. destruct Hy as [Hy | [_ Hy]]; [lia | congruence].
Qed.

Lemma in_order_once (k : nat) (t : list event) :
  in_order t -> (k <> 7 /\ k <> 8 /\ k <> 10)%nat ->
  (count_phase k t <= 1)%nat.
Proof.
  intros H Hk. unfold in_order in H. induction H as [| x t Hx Ht IH].
  - cbn. lia.
  - unfold count_phase in *. cbn [filter].
    destruct (Nat.eqb (phase x) k) eqn:E; [| exact IH].
    apply Nat.eqb_eq in E. cbn [List.length].
    assert (Hr : repeated x = false).
    { destruct (repeated x) eqn:R; [| reflexivity].
      apply repeated_of_phase in R. lia. }
    pose proof (count_phase_after k x t Hx E Hr) as H0.
    unfold count_phase in H0. lia.
Qed.

(** X4: the calls of [startTest] are made in one order, whatever the
    results: seed, parse, defaults, authentication mode, set-up, host name,
    connect, then the handshake calls, then the write calls, then the
    verification result, then the read calls, then an error print, the
    close, the status print.  Only the handshake, write and read calls are
    repeated: the socket is connected at most once and closed at most once,
    at most one error is printed, and the status is printed at most once. *)
Theorem calls_follow_one_order (e : env) (path : string) (h : HelloHTTPS) :
  in_order (trace_of (startTest e path h)) /\
  (count_phase 6 (trace_of (startTest e path h)) <= 1)%nat /\
  (closes (trace_of (startTest e path h)) <= 1)%nat /\
  (errors (trace_of (startTest e path h)) <= 1)%nat /\
  (statuses (trace_of (startTest e path h)) <= 1)%nat.
Proof.
  pose proof (startTest_ordered e path h) as H.
  unfold closes, errors, statuses.
  repeat split; try exact H; apply in_order_once; try exact H; lia.
Qed.

(** ** Writes and reads wait for the handshake *)

Lemma handshake_loop_last (results : list Z) (t : list event) (ret : Z) :
  handshake_loop results = (t, Exited ret tt) ->
  In (ev_ssl_handshake ret) t /\ would_block ret = false.
Proof.
  revert t. induction results as [| r rs IH]; intros t H; [discriminate |].
  simpl in H. destruct (negb (r =? 0) && would_block r) eqn:E.
  - destruct (handshake_loop rs) as [t' stop]. injection H as <- ->.
    destruct (IH t' eq_refl) as [Hin Hwb]. split; [now right | exact Hwb].
  - injection H as <- <-. split; [now left |].
    apply andb_false_iff in E as [E | E]; [| exact E].
    apply negb_false_iff, Z.eqb_eq in E. subst r. reflexivity.
Qed.

Ltac before_request_list :=
  repeat (constructor; [unfold before_request; cbn [phase]; lia |]);
  constructor.

(** X5: [startTest] writes the request, asks for the verification result
    or reads the response only once the four steps of configuration have
    returned 0, the connection has succeeded and the handshake loop has
    ended with a result that is zero or positive: in every other run the
    trace holds no write, no verification and no read. *)
Theorem request_waits_for_handshake (e : env) (path : string)
    (h : HelloHTTPS) :
  Forall before_request (trace_of (startTest e path h)) \/
  (seed_result e = 0 /\ crt_parse_result e = 0 /\
   config_defaults_result e = 0 /\ setup_result e = 0 /\
   connect_result e = NSAPI_ERROR_OK /\
   exists th ret,
     handshake_loop (handshake_results e) = (th, Exited ret tt) /\
     0 <= ret /\
     In (ev_ssl_handshake ret) (trace_of (startTest e path h))).
Proof.
  unfold startTest, trace_of.
  destruct (negb (seed_result e =? 0)) eqn:E1;
    [left; before_request_list |].
  destruct (negb (crt_parse_result e =? 0)) eqn:E2;
    [left; before_request_list |].
  destruct (negb (config_defaults_result e =? 0)) eqn:E3;
    [left; before_request_list |].
  destruct (negb (setup_result e =? 0)) eqn:E4;
    [left; before_request_list |].
  destruct (negb (connect_result e =? NSAPI_ERROR_OK)) eqn:E5;
    [left; cbn [fst app]; before_request_list |].
  apply negb_false_iff, Z.eqb_eq in E1, E2, E3, E4, E5.
  unfold handshake.
  pose proof (handshake_loop_events (handshake_results e)) as Hev.
  destruct (handshake_loop (handshake_results e)) as [th stop] eqn:Hloop.
  cbn [fst] in Hev.
  assert (Hth : Forall before_request th).
  { eapply Forall_impl; [| exact Hev]. intros ev H.
    unfold before_request. cbv beta in H. lia. }
  destruct stop as [ret [] | []].
  - destruct (ret <? 0) eqn:N.
    + left. cbn [after fst]. apply Forall_app. split;
        [before_request_list |].
      apply Forall_app. split; [exact Hth | before_request_list].
    + right. apply Z.ltb_ge in N. repeat (split; [assumption |]).
      exists th, ret. split; [reflexivity | split; [exact N |]].
      destruct (send_request e path (clear_flags h)) as [[t o] h'].
      cbn [after fst]. apply in_or_app. right. apply in_or_app. left.
      exact (proj1 (handshake_loop_last _ _ _ Hloop)).
  - left. cbn [after fst]. apply Forall_app. split;
      [before_request_list | exact Hth].
Qed.

(** ** Write calls that return no more than they are offered *)

Lemma write_loop_within (results : list Z) :
  forall bpos offset,
    0 <= offset <= bpos -> bpos <= INT_MAX ->
    Forall write_within (fst (write_loop results bpos offset)) ->
    Forall (offers_rest bpos) (fst (write_loop results bpos offset)) /\
    offset <= state_of (snd (write_loop results bpos offset)) <= bpos.
Proof.
  pose proof INT_MAX_size_t as Hmax.
  induction results as [| r rs IH]; intros bpos offset Hoff Hb Hin.
  - simpl. split; [constructor | lia].
  - set (offset' := if 0 <? r then offset + r else offset).
    assert (Hlen : size_t (bpos - size_t offset) = bpos - offset).
    { rewrite (size_t_small offset) by lia. apply size_t_small. lia. }
    destruct ((size_t offset' <? bpos) && ((0 <? r) || would_block r)) eqn:E.
    + rewrite write_loop_continues in * by exact E. fold offset' in Hin |- *.
      cbn [fst snd] in *. rewrite Hlen in *.
      apply Forall_cons_iff in Hin as [Hr Hin]. cbn [write_within] in Hr.
      assert (Hoff' : offset <= offset' <= bpos).
      { unfold offset'. destruct (0 <? r) eqn:P;
          [apply Z.ltb_lt in P |]; lia. }
      destruct (IH bpos offset' ltac:(lia) Hb Hin) as [IH1 IH2].
      split; [| lia]. constructor; [| exact IH1].
      cbn [offers_rest]. lia.
    + rewrite write_loop_stops in * by exact E. fold offset' in Hin |- *.
      cbn [fst snd state_of] in *. rewrite Hlen in *.
      apply Forall_cons_iff in Hin as [Hr _]. cbn [write_within] in Hr.
      split.
      * constructor; [| constructor]. cbn [offers_rest]. lia.
      * unfold offset'. destruct (0 <? r) eqn:P;
          [apply Z.ltb_lt in P |]; lia.
Qed.

(** X6: when no write call returns more than the length it was given, every
    call of the write loop is offered exactly the bytes from the current
    offset to [_bpos], the offset never goes back and never passes [_bpos]:
    for any results, errors and zeros included. *)
Theorem write_calls_offer_the_rest (results : list Z) (bpos : Z) :
  0 <= bpos <= INT_MAX ->
  Forall write_within (fst (write_loop results bpos 0)) ->
  Forall (offers_rest bpos) (fst (write_loop results bpos 0)) /\
  0 <= state_of (snd (write_loop results bpos 0)) <= bpos.
Proof.
  intros Hb Hin.
  exact (write_loop_within results bpos 0 ltac:(lia) ltac:(lia) Hin).
Qed.

Lemma write_calls_offer_the_rest_witness :
  Forall (offers_rest 71)
    (fst (write_loop [40; MBEDTLS_ERR_SSL_WANT_WRITE; 0; 31] 71 0)) /\
  0 <= state_of (snd (write_loop [40; MBEDTLS_ERR_SSL_WANT_WRITE; 0; 31]
                        71 0))
  <= 71.
Proof.
  apply (write_calls_offer_the_rest [40; MBEDTLS_ERR_SSL_WANT_WRITE; 0; 31]
           71).
  - unfold INT_MAX. lia.
  - vm_compute. repeat constructor; discriminate.
Defined.

(** ** A write that gives up *)

Lemma request_text_length (path : string) :
  len (request_text path) = 33 + len (percent_s (bytes path)).
Proof.
  unfold request_text. rewrite !len_app.
  change (len (bytes "GET ")) with 4.
  change (len (bytes " HTTP/1.1")) with 9.
  change (len [LF]) with 1.
  change (len (bytes "Host: ")) with 6.
  change (len (percent_s (chars HTTPS_SERVER_NAME))) with 11.
  change (len [LF; LF]) with 2. lia.
Qed.

Lemma request_bpos (path : string) (h : HelloHTTPS) :
  len (request_text path) <= INT_MAX ->
  _bpos (fill_request_buffer path h) = len (request_text path) /\
  0 < len (request_text path).
Proof.
  intros H. pose proof (request_text_length path) as Hlen.
  pose proof (len_nonneg (percent_s (bytes path))) as Hnn.
  unfold fill_request_buffer. rewrite render_size, snprintf_positive by lia.
  cbn [set_buffer _bpos]. split; [| lia].
  apply size_t_small. pose proof INT_MAX_size_t. lia.
Qed.

Lemma write_loop_running (pre : list Z) :
  forall rest L offset,
    0 <= offset -> L <= INT_MAX ->
    Forall partial_write pre ->
    offset + total_sent pre < L ->
    write_loop (pre ++ rest) L offset
    = (expected_calls L offset pre
         ++ fst (write_loop rest L (offset + total_sent pre)),
       snd (write_loop rest L (offset + total_sent pre))).
Proof.
  pose proof INT_MAX_size_t as Hmax.
  induction pre as [| r pre IH]; intros rest L offset Hoff HL Hall Hsum.
  - cbn [app total_sent expected_calls]. rewrite Z.add_0_r.
    now destruct (write_loop rest L offset).
  - apply Forall_cons_iff in Hall as [Hr Hpre].
    pose proof (total_sent_nonneg pre) as Hnn.
    pose proof (partial_write_retries r Hr) as Hretry.
    cbn [total_sent] in Hsum.
    set (offset' := if 0 <? r then offset + r else offset).
    assert (Heq : offset' = offset + (if 0 <? r then r else 0) /\
                  offset <= offset').
    { unfold offset'. destruct (0 <? r) eqn:E; [apply Z.ltb_lt in E |]; lia. }
    destruct Heq as [Heq Hle].
    assert (Hlen : size_t (L - size_t offset) = L - offset).
    { rewrite (size_t_small offset) by lia. apply size_t_small. lia. }
    change ((r :: pre) ++ rest) with (r :: (pre ++ rest)).
    rewrite write_loop_continues; fold offset'.
    + rewrite (IH rest L offset') by (try assumption; lia).
      cbn [fst snd expected_calls total_sent]. fold offset'.
      rewrite Hlen. replace (offset + ((if 0 <? r then r else 0)
                                       + total_sent pre))
        with (offset' + total_sent pre) by lia.
      reflexivity.
    + rewrite size_t_small by lia. rewrite Hretry, andb_true_r.
      apply Z.ltb_lt. lia.
Qed.

Lemma write_loop_gives_up (pre : list Z) (r : Z) (rest : list Z) (L : Z) :
  L <= INT_MAX ->
  Forall partial_write pre ->
  total_sent pre < L ->
  r <= 0 -> would_block r = false ->
  write_loop (pre ++ r :: rest) L 0
  = (expected_calls L 0 pre
       ++ [ev_ssl_write (total_sent pre) (L - total_sent pre) r],
     Exited r (total_sent pre)).
Proof.
  intros HL Hpre Hsum Hr Hwb. pose proof INT_MAX_size_t as Hmax.
  pose proof (total_sent_nonneg pre) as Hnn.
  rewrite (write_loop_running pre (r :: rest) L 0) by (try assumption; lia).
  rewrite Z.add_0_l.
  assert (Hpos : (0 <? r) = false) by (apply Z.ltb_ge; lia).
  rewrite write_loop_stops; rewrite Hpos.
  - cbn [fst snd]. rewrite (size_t_small (total_sent pre)) by lia.
    rewrite size_t_small by lia. reflexivity.
  - rewrite Hwb. apply andb_false_r.
Qed.

(** X7: a write call that returns an error, after any partial writes that
    left part of the request unsent, ends [startTest]: the error is printed,
    the socket is closed, and no verification result is asked for and
    nothing is read. *)
Theorem write_error_ends_session (e : env) (path : string) (h : HelloHTTPS)
    (pre : list Z) (r : Z) (rest : list Z) :
  let L := len (request_text path) in
  L <= INT_MAX ->
  write_results e = pre ++ r :: rest ->
  Forall partial_write pre ->
  total_sent pre < L ->
  r < 0 -> would_block r = false ->
  send_request e path h
  = (expected_calls L 0 pre
       ++ [ev_ssl_write (total_sent pre) (L - total_sent pre) r;
           ev_print_error Write r; ev_close],
     Failed Write r,
     fill_request_buffer path h).
Proof.
  intros L HL He Hpre Hsum Hr Hwb.
  destruct (request_bpos path h HL) as [Hbpos _]. fold L in Hbpos.
  unfold send_request. rewrite Hbpos, He.
  rewrite (write_loop_gives_up pre r rest L) by (try assumption; lia).
  apply Z.ltb_lt in Hr. rewrite Hr. rewrite <- app_assoc. reflexivity.
Qed.

Lemma write_error_ends_session_witness :
  send_request (with_write_results env_success [40; -1; 31]) main_path
    hello_example
  = ([ev_ssl_write 0 71 40; ev_ssl_write 40 31 (-1);
      ev_print_error Write (-1); ev_close],
     Failed Write (-1),
     fill_request_buffer main_path hello_example).
Proof.
  apply (write_error_ends_session
           (with_write_results env_success [40; -1; 31]) main_path
           hello_example [40] (-1) [31]).
  - vm_compute. discriminate.
  - reflexivity.
  - repeat constructor.
  - vm_compute. reflexivity.
  - lia.
  - reflexivity.
Defined.

(** X8: a write call that returns 0, after any partial writes that left
    part of the request unsent, also ends the write loop, and no error is
    seen in it: [startTest] goes on to the verification result and to the
    read loop although the request was not sent whole. *)
Theorem write_zero_is_taken_for_success (e : env) (path : string)
    (h : HelloHTTPS) (pre : list Z) (rest : list Z) :
  let L := len (request_text path) in
  L <= INT_MAX ->
  write_results e = pre ++ 0 :: rest ->
  Forall partial_write pre ->
  total_sent pre < L ->
  send_request e path h
  = after (expected_calls L 0 pre
             ++ [ev_ssl_write (total_sent pre) (L - total_sent pre) 0;
                 ev_ssl_get_verify_result (verify_result e)])
      (read_response e (fill_request_buffer path h)).
Proof.
  intros L HL He Hpre Hsum.
  destruct (request_bpos path h HL) as [Hbpos _]. fold L in Hbpos.
  unfold send_request. rewrite Hbpos, He.
  rewrite (write_loop_gives_up pre 0 rest L)
    by (try assumption; try reflexivity; lia).
  change (0 <? 0) with false. cbv iota. rewrite <- app_assoc. reflexivity.
Qed.

Lemma write_zero_is_taken_for_success_witness :
  outcome_of
    (send_request (with_write_results env_success [40; 0; 31]) main_path
       hello_example)
  = Reported 27 true true (bytes "HTTP/1.1 200 OKHello world!") /\
  send_request (with_write_results env_success [40; 0; 31]) main_path
    hello_example
  = after ([ev_ssl_write 0 71 40; ev_ssl_write 40 31 0;
            ev_ssl_get_verify_result 0])
      (read_response (with_write_results env_success [40; 0; 31])
         (fill_request_buffer main_path hello_example)).
Proof.
  split; [vm_compute; reflexivity |].
  apply (write_zero_is_taken_for_success
           (with_write_results env_success [40; 0; 31]) main_path
           hello_example [40] [31]).
  - vm_compute. discriminate.
  - reflexivity.
  - repeat constructor.
  - vm_compute. reflexivity.
Defined.

(** ** A read that fails *)

(** X9: in the read phase of [startTest], the read loop is still running
    after the calls of [before] and the next call returns an error.  Then
    the loop ends with that call, the error is printed, the socket is
    closed, and no status is printed: the flags keep what was found so far
    but are not reported. *)
Theorem read_error_ends_session (e : env) (path : string) (h : HelloHTTPS)
    (before : list read_op) (op : read_op) (rest : list read_op)
    (h2 : HelloHTTPS) (offset : Z) (r : Z) :
  read_results e = before ++ op :: rest ->
  Forall honours_length (read_results e) ->
  len (_buffer h) = RECV_BUFFER_SIZE ->
  let h1 := fill_request_buffer path (clear_flags h) in
  snd (read_loop before h1 0) = Calling (h2, offset) ->
  fst (op (RECV_BUFFER_SIZE - 1 - offset)) = r ->
  r < 0 -> would_block r = false ->
  exists h',
    read_response e h1
    = (map read_event (fst (read_loop before h1 0))
         ++ [ev_ssl_read offset (RECV_BUFFER_SIZE - 1 - offset) r;
             ev_print_error Read r; ev_close],
       Failed Read r, h') /\
    _got200 h' = _got200 h2 /\ _gothello h' = _gothello h2.
Proof.
  intros He Hops Hsize h1 Hstop Hr Hneg Hwb.
  destruct (read_phase_entry path h Hsize) as (Hsize1 & H200 & Hhello).
  fold h1 in Hsize1, H200, Hhello.
  rewrite He in Hops. apply Forall_app in Hops as [Hbefore Hrest].
  apply Forall_cons_iff in Hrest as [Hop _].
  pose proof (accumulated_on_entry h1 Hsize1) as Hacc.
  destruct (read_loop_run _ _ _ h1 0 [] Hbefore Hacc) as [_ Hend].
  rewrite Hstop in Hend. cbn [state_of fst snd app] in Hend.
  destruct (read_body op h2 offset) as [[ret h3] offset3] eqn:Hbody.
  destruct (read_body_spec _ _ _ _ _ _ _ _ _ Hend Hop Hbody)
    as (Hret & Hoff3 & _ & _ & Hacc3).
  rewrite Hr in Hret. subst ret.
  assert (Hpos : (0 <? r) = false) by (apply Z.ltb_ge; lia).
  unfold fresh in Hoff3, Hacc3. rewrite Hpos in Hoff3, Hacc3.
  rewrite app_nil_r in Hacc3.
  change (len []) with 0 in Hoff3. rewrite Z.add_0_r in Hoff3. subst offset3.
  assert (Hlen : size_t (size_t RECV_BUFFER_SIZE - size_t offset - 1)
                 = RECV_BUFFER_SIZE - 1 - offset).
  { apply requested_length. apply Hend. }
  destruct (accumulated_same_flags _ _ _ _ _ _ _ Hacc3 Hend)
    as (_ & F200 & Fhello).
  exists h3. split; [| split; assumption].
  unfold read_response.
  rewrite He, read_loop_app, Hstop, (read_loop_cons _ rest _ _ _ _ _ Hbody).
  unfold retry. rewrite Hpos, Hwb. cbn [orb]. rewrite andb_false_r.
  cbn [fst snd]. apply Z.ltb_lt in Hneg. rewrite Hneg.
  rewrite map_app. cbn [map]. unfold read_event at 2.
  cbn [rd_at rd_length rd_ret]. rewrite Hlen, <- app_assoc. reflexivity.
Qed.

Lemma failing_honours_length : honours_length failing.
Proof. intros n Hn. unfold failing. cbn [fst snd]. split; lia. Qed.

Lemma read_error_ends_session_witness :
  let h1 := fill_request_buffer main_path (clear_flags hello_example) in
  exists h',
    read_response env_read_error h1
    = ([ev_ssl_read 0 599 15; ev_ssl_read 15 584 (-1);
        ev_print_error Read (-1); ev_close],
       Failed Read (-1), h') /\
    _got200 h' = true /\ _gothello h' = false.
Proof.
  intros h1.
  destruct (read_error_ends_session env_read_error main_path hello_example
              [ready "HTTP/1.1 200 OK"] failing [ready "Hello world!"]
              (fst (state_of (snd (read_loop [ready "HTTP/1.1 200 OK"]
                                     h1 0))))
              15 (-1)) as (h' & Hrun & H200 & Hhello).
  - reflexivity.
  - cbn [read_results env_read_error].
    apply Forall_cons; [apply ready_honours_length |].
    apply Forall_cons; [exact failing_honours_length |].
    apply Forall_cons; [apply ready_honours_length | apply Forall_nil].
  - exact hello_example_size.
  - vm_compute. reflexivity.
  - reflexivity.
  - lia.
  - reflexivity.
  - exists h'. split; [exact Hrun | split].
    + rewrite H200. vm_compute. reflexivity.
    + rewrite Hhello. vm_compute. reflexivity.
Defined.

(** ** The render of the request *)

Lemma firstn_exact (a b : list byte) : firstn (List.length a) (a ++ b) = a.
Proof. induction a as [| x a IH]; simpl; [now destruct b | now rewrite IH]. Qed.

Lemma nth_error_past_store (data : list byte) :
  forall buf i,
    (List.length data <= i)%nat ->
    nth_error (store buf O data) i = nth_error buf i.
Proof.
  induction data as [| d data IH]; intros buf i H.
  - destruct buf; reflexivity.
  - destruct buf as [| b buf]; [reflexivity |].
    destruct i as [| i]; [simpl in H; lia |].
    cbn [store nth_error]. apply IH. simpl in H. lia.
Qed.

(** X10: the request has 33 characters more than the path.  After the
    render the array has kept its size and its last byte, and holds as a C
    string the first 598 characters of the request: the whole request
    exactly when the path has at most 565 characters. *)
Theorem request_render_bounds (path : string) (h : HelloHTTPS) :
  len (_buffer h) = RECV_BUFFER_SIZE ->
  let h1 := fill_request_buffer path h in
  len (request_text path) = 33 + len (percent_s (bytes path)) /\
  len (_buffer h1) = RECV_BUFFER_SIZE /\
  c_str (_buffer h1) = firstn 598 (request_text path) /\
  (c_str (_buffer h1) = request_text path <->
   len (percent_s (bytes path)) <= 565) /\
  nth_error (_buffer h1) 599 = nth_error (_buffer h) 599.
Proof.
  intros Hsize h1.
  pose proof (request_text_length path) as Hlen.
  destruct (snprintf_truncates (_buffer h) path Hsize) as [Hkeep Hstr].
  assert (Hbuf : _buffer h1
                 = fst (snprintf (_buffer h)
                          (size_t (size_t RECV_BUFFER_SIZE - 1))
                          (request_text path))).
  { unfold h1, fill_request_buffer.
    destruct (snprintf _ _ _) as [buffer n]. reflexivity. }
  rewrite <- Hbuf in Hkeep, Hstr.
  change (Z.to_nat (RECV_BUFFER_SIZE - 2)) with 598%nat in Hstr.
  split; [exact Hlen | split; [exact Hkeep | split; [exact Hstr | split]]].
  - rewrite Hstr. split.
    + intros H. apply (f_equal (@List.length byte)) in H.
      rewrite length_firstn in H. unfold len in *. lia.
    + intros H. apply firstn_all2. unfold len in *. lia.
  - rewrite Hbuf, render_size, snprintf_positive by lia. cbn [fst].
    apply nth_error_past_store. rewrite length_app, length_firstn.
    cbn [List.length]. lia.
Qed.

Lemma request_render_bounds_witness :
  let h1 := fill_request_buffer long_path hello_example in
  len (request_text long_path) = 33 + len (percent_s (bytes long_path)) /\
  len (_buffer h1) = RECV_BUFFER_SIZE /\
  c_str (_buffer h1) = firstn 598 (request_text long_path) /\
  (c_str (_buffer h1) = request_text long_path <->
   len (percent_s (bytes long_path)) <= 565) /\
  nth_error (_buffer h1) 599 = nth_error (_buffer hello_example) 599.
Proof.
  apply (request_render_bounds long_path hello_example).
  exact hello_example_size.
Defined.

(** ** A response larger than the array *)

Lemma received_app (a b : list read_step) :
  received (a ++ b) = received a ++ received b.
Proof. unfold received. apply flat_map_app. Qed.

(** X11: the read loop never takes more than [RECV_BUFFER_SIZE - 1] bytes
    in all.  Each call is made at the number of bytes received so far and
    asks for what is left of the array but for its last byte, so that once
    599 bytes are received every further call asks for 0 bytes: the rest of
    a longer response is not read. *)
Theorem response_is_cut_at_capacity (ops : list read_op) (h : HelloHTTPS) :
  Forall honours_length ops ->
  len (_buffer h) = RECV_BUFFER_SIZE ->
  len (received (fst (read_loop ops h 0))) <= RECV_BUFFER_SIZE - 1 /\
  (forall pre s post,
     fst (read_loop ops h 0) = pre ++ s :: post ->
     rd_at s = len (received pre) /\
     rd_length s = RECV_BUFFER_SIZE - 1 - len (received pre) /\
     0 <= rd_length s /\
     len (fresh (rd_ret s) (rd_data s)) <= rd_length s).
Proof.
  intros Hops Hsize.
  destruct (read_loop_run _ _ ops h 0 [] Hops (accumulated_on_entry h Hsize))
    as [Hsteps Hend].
  split.
  - destruct Hend as (_ & Hoff & Hlen & _). cbn [app] in Hlen. lia.
  - intros pre s post Hsplit.
    destruct (Hsteps pre s post Hsplit)
      as (Hacc & _ & Hat & Hlen & Hoff & Hmore).
    destruct Hacc as (_ & Hcur & Hgot & _).
    cbn [app] in Hgot. rewrite received_app, len_app in Hgot.
    unfold received at 2 in Hgot. cbn [flat_map] in Hgot.
    rewrite app_nil_r in Hgot.
    assert (Hpre : rd_at s = len (received pre)) by lia.
    pose proof (len_nonneg (fresh (rd_ret s) (rd_data s))) as Hnn.
    rewrite <- Hpre. repeat split; try assumption; lia.
Qed.

(** A server that sends 700 bytes in one piece, then 100 more. *)
Lemma response_is_cut_at_capacity_witness :
  len (received
         (fst (read_loop
                 [ready (string_of_list_ascii (repeat "b"%char 700));
                  ready (string_of_list_ascii (repeat "c"%char 100))]
                 hello_example 0)))
  <= RECV_BUFFER_SIZE - 1.
Proof.
  apply (response_is_cut_at_capacity
           [ready (string_of_list_ascii (repeat "b"%char 700));
            ready (string_of_list_ascii (repeat "c"%char 100))]
           hello_example).
  - apply Forall_cons; [apply ready_honours_length |].
    apply Forall_cons; [apply ready_honours_length | apply Forall_nil].
  - exact hello_example_size.
Defined.

Example long_response_is_cut :
  map read_event
    (fst (read_loop
            [ready (string_of_list_ascii (repeat "b"%char 700));
             ready (string_of_list_ascii (repeat "c"%char 100))]
            hello_example 0))
  = [ev_ssl_read 0 599 599; ev_ssl_read 599 0 0].
Proof. vm_compute. reflexivity. Qed.

(** ** What the status tells *)

Lemma final_buffer (was200 washello : bool) (h : HelloHTTPS)
    (offset : Z) (got : list byte) :
  accumulated was200 washello h offset got ->
  exists tail,
    store (_buffer h) (Z.to_nat (size_t offset)) [NUL] = got ++ NUL :: tail.
Proof.
  intros (Hsize & Hoff & Hgot & [tail Hbuf] & _).
  assert (Hsmall : size_t offset = offset).
  { apply size_t_small. unfold RECV_BUFFER_SIZE in Hoff. lia. }
  rewrite Hsmall, Hbuf, <- Hgot. unfold len at 1.
  rewrite Nat2Z.id, store_terminator; [now eexists |].
  intros ->. rewrite Hbuf, app_nil_r in Hsize.
  unfold RECV_BUFFER_SIZE in *. lia.
Qed.

(** X12: when [startTest] prints its status, the count it prints is the
    number of bytes received, at most 599, and is left in [_bpos]; the array
    has kept its size, starts with these bytes and has the terminator right
    after them; the message printed is no longer than the count, and is all
    the bytes received when none of them is zero. *)
Theorem status_counts_received_bytes (e : env) (path : string)
    (h : HelloHTTPS) (t : list event) (n : Z) (g200 ghello : bool)
    (msg : list byte) (h' : HelloHTTPS) :
  Forall honours_length (read_results e) ->
  len (_buffer h) = RECV_BUFFER_SIZE ->
  startTest e path h = (t, Reported n g200 ghello msg, h') ->
  let got :=
    received (fst (read_loop (read_results e)
                     (fill_request_buffer path (clear_flags h)) 0)) in
  n = len got /\ 0 <= n <= RECV_BUFFER_SIZE - 1 /\
  _bpos h' = n /\
  len (_buffer h') = RECV_BUFFER_SIZE /\
  firstn (Z.to_nat n) (_buffer h') = got /\
  nth_error (_buffer h') (Z.to_nat n) = Some NUL /\
  len msg <= n /\
  (~ In NUL got -> msg = got).
Proof.
  intros Hops Hsize Hrun got.
  destruct (read_phase_entry path h Hsize) as (Hsize1 & _ & _).
  apply startTest_reported in Hrun as [t' Hrun].
  set (h1 := fill_request_buffer path (clear_flags h)) in *.
  pose proof Hrun as Hshape. unfold read_response in Hshape.
  destruct (read_loop_run _ _ _ h1 0 [] Hops (accumulated_on_entry h1 Hsize1))
    as [_ Hend].
  fold got in Hend.
  destruct (read_loop (read_results e) h1 0) as [steps stop].
  destruct stop as [ret [last offset] | [last offset]]; [| discriminate].
  destruct (ret <? 0); [discriminate |].
  injection Hshape as _ Hn _ _ Hmsg Hh'.
  cbn [state_of fst snd app] in Hend.
  destruct (final_terminator _ _ _ _ _ Hend) as [Hsmall Hstr].
  destruct (final_buffer _ _ _ _ _ Hend) as [tail Hbuf].
  destruct Hend as (Hlast & Hoff & Hgot & _).
  rewrite Hsmall in Hn. subst n.
  assert (Hidx : Z.to_nat offset = List.length got).
  { rewrite <- Hgot. unfold len. now rewrite Nat2Z.id. }
  subst h'. cbn [set_buffer _buffer _bpos]. rewrite Hbuf, Hidx.
  unfold percent_s in Hmsg. rewrite Hstr in Hmsg. subst msg.
  repeat split; try lia.
  - rewrite <- Hbuf. unfold len in *. now rewrite store_length.
  - apply firstn_exact.
  - rewrite <- Hidx, <- Hgot. apply nth_error_cursor.
  - pose proof (c_str_length got). unfold len in *. lia.
  - intros Hno. now apply c_str_no_terminator.
Qed.

Lemma status_counts_received_bytes_witness :
  27 = len (received
              (fst (read_loop (read_results env_success)
                      (fill_request_buffer main_path
                         (clear_flags hello_example)) 0))) /\
  0 <= 27 <= RECV_BUFFER_SIZE - 1.
Proof.
  destruct (startTest env_success main_path hello_example)
    as [[t o] h'] eqn:Hrun.
  assert (Ho : o = Reported 27 true true
                     (bytes "HTTP/1.1 200 OKHello world!")).
  { change o with (snd (fst (t, o, h'))). rewrite <- Hrun.
    exact startTest_env_success. }
  subst o.
  destruct (status_counts_received_bytes env_success main_path hello_example
              t 27 true true (bytes "HTTP/1.1 200 OKHello world!") h'
              env_success_honours_length hello_example_size Hrun)
    as (H1 & H2 & _).
  split; [exact H1 | exact H2].
Defined.

(** ** The whole program *)

Lemma count_phase_app (k : nat) (a b : list event) :
  count_phase k (a ++ b) = (count_phase k a + count_phase k b)%nat.
Proof. unfold count_phase. now rewrite filter_app, length_app. Qed.

Lemma count_phase_below (k k' : nat) (t : list event) :
  Forall (fun ev => (phase ev <= k')%nat) t -> (k' < k)%nat ->
  count_phase k t = 0%nat.
Proof.
  intros H Hk. unfold count_phase. induction H as [| x t Hx Ht IH].
  - reflexivity.
  - cbn [filter]. destruct (Nat.eqb (phase x) k) eqn:E; [| exact IH].
    apply Nat.eqb_eq in E. lia.
Qed.

Lemma reach_at_most_10 (o : outcome) : (reach o <= 10)%nat.
Proof. destruct o as [[] ret | | []]; cbn; lia. Qed.

(** X13: [main] returns 1 without any call when there is no network.  With
    a network, whenever [startTest] returns, [main] returns 0 and its last
    call is the close of the destructor: the socket is closed once when the
    configuration failed, and twice in every other case, [startTest]
    having closed it already. *)
Theorem program_closes_socket (e : env) (garbage : list byte)
    (disconnected : bool) :
  program false e garbage disconnected = (Some 1, []) /\
  match outcome_of (main e garbage disconnected) with
  | Busy _ =>
      fst (program true e garbage disconnected) = None /\
      closes (snd (program true e garbage disconnected)) = 0%nat
  | Failed s _ =>
      fst (program true e garbage disconnected) = Some 0 /\
      closes (snd (program true e garbage disconnected))
      = (if configuration s then 1 else 2)%nat /\
      exists t, snd (program true e garbage disconnected) = t ++ [ev_close]
  | Reported _ _ _ _ =>
      fst (program true e garbage disconnected) = Some 0 /\
      closes (snd (program true e garbage disconnected)) = 2%nat /\
      exists t, snd (program true e garbage disconnected) = t ++ [ev_close]
  end.
Proof.
  split; [reflexivity |].
  unfold program, main.
  destruct (startTest_ends_well e main_path
              (construct (chars HTTPS_SERVER_NAME) HTTPS_SERVER_PORT garbage
                 disconnected)) as (_ & body & Htrace & Hbody).
  fold (main e garbage disconnected) in *.
  set (r := main e garbage disconnected) in *.
  pose proof (reach_at_most_10 (outcome_of r)) as Hreach.
  assert (Hzero : closes body = 0%nat).
  { unfold closes. apply (count_phase_below 12 10); [| lia].
    exact (Forall_le_trans _ _ _ Hbody Hreach). }
  destruct (outcome_of r) as [s ret | n g200 ghello msg | s];
    cbn [fst snd]; rewrite Htrace.
  - split; [reflexivity |]. split; [| now eexists].
    unfold closes in *. rewrite !count_phase_app, Hzero.
    destruct s; reflexivity.
  - split; [reflexivity |]. split; [| now eexists].
    unfold closes in *. rewrite !count_phase_app, Hzero. reflexivity.
  - split; [reflexivity |].
    unfold closes in *. rewrite count_phase_app, Hzero. reflexivity.
Qed.
